(** * physicslfo~ : the physics oscillator engine

    A shallow embedding of [physicslfo~.c].  C [double]s are read as real
    numbers (no rounding, no NaN, no infinities); [long] and [short] are
    integers.  Each C function that mutates the object [x] becomes a function
    returning the new object.  Where a property sits on a rounding boundary
    the phase accumulator is evaluated a second time in IEEE 754 binary64
    (module [Binary64]). *)

From Stdlib Require Import String.
From Stdlib Require PrimFloat.
From Stdlib Require Import Reals Lra Lia ZArith Bool List Sorted.
Import ListNotations.

Open Scope R_scope.

Module PhysicsLfo.

(** ** Numeric helpers of the C run time *)

(** Modelled from the spec: the [CLAMP] macro of the Max SDK headers
    ([ext.h]), which are not part of the sources; it limits [a] to the
    domain [[lo, hi]], written as the SDK writes it,
    [(a)>(lo) ? ((a)<(hi) ? (a) : (hi)) : (lo)]. *)
Definition CLAMP (a lo hi : R) : R :=
  if Rgt_dec a lo then (if Rlt_dec a hi then a else hi) else lo.

(** The same macro at type [long]. *)
Definition CLAMP_long (a lo hi : Z) : Z :=
  if (a >? lo)%Z then (if (a <? hi)%Z then a else hi) else lo.

(** [#define PI 3.14159265358979323846] *)
Definition PI : R := 3.14159265358979323846.

(** [fmax] of <math.h>. *)
Definition fmax (a b : R) : R := if Rle_dec a b then b else a.

(** The conversion [(long)d]: truncation toward zero. *)
Definition long_of_double (d : R) : Z :=
  if Rle_dec 0 d then Int_part d else (- Int_part (- d))%Z.

(** [fmod] of <math.h>: the remainder has the sign of [a]. *)
Definition fmod (a b : R) : R := a - IZR (long_of_double (a / b)) * b.

(** [pow] of <math.h>.  For a positive base it is [exp (y * ln x)]; a zero
    base gives 1 at exponent 0 and 0 at a positive exponent.  The remaining
    arguments (negative base, or zero base with negative exponent), where C
    answers NaN or an infinity for the exponents this program uses, are mapped
    to 0. *)
Definition pow (a y : R) : R :=
  if Rlt_dec 0 a then Rpower a y
  else if Req_dec_T y 0 then 1 else 0.

(** C truth value of an integer. *)
Definition truthy (z : Z) : bool := negb (z =? 0)%Z.

(** ** The object *)

Record t_physicslfo : Type := mk_physicslfo {
  phase : R;
  sr : R;
  sr_inv : R;
  freq_float : R;
  type_float : R;
  physics_float : R;
  damping_float : R;
  freq_has_signal : Z;
  type_has_signal : Z;
  physics_has_signal : Z;
  damping_has_signal : Z;
  velocity : R;
  acceleration : R;
  energy : R;
  bounce_count : R;
  last_value : R;
  spin_phase : R;
  looping_mode : Z;
  envelope_active : Z
}.

(** Field assignments [x->f = v]. *)
Definition set_phase (x : t_physicslfo) (v : R) : t_physicslfo :=
  mk_physicslfo v (sr x) (sr_inv x) (freq_float x) (type_float x)
    (physics_float x) (damping_float x) (freq_has_signal x)
    (type_has_signal x) (physics_has_signal x) (damping_has_signal x)
    (velocity x) (acceleration x) (energy x) (bounce_count x) (last_value x)
    (spin_phase x) (looping_mode x) (envelope_active x).

Definition set_sr (x : t_physicslfo) (v : R) : t_physicslfo :=
  mk_physicslfo (phase x) v (sr_inv x) (freq_float x) (type_float x)
    (physics_float x) (damping_float x) (freq_has_signal x)
    (type_has_signal x) (physics_has_signal x) (damping_has_signal x)
    (velocity x) (acceleration x) (energy x) (bounce_count x) (last_value x)
    (spin_phase x) (looping_mode x) (envelope_active x).

Definition set_sr_inv (x : t_physicslfo) (v : R) : t_physicslfo :=
  mk_physicslfo (phase x) (sr x) v (freq_float x) (type_float x)
    (physics_float x) (damping_float x) (freq_has_signal x)
    (type_has_signal x) (physics_has_signal x) (damping_has_signal x)
    (velocity x) (acceleration x) (energy x) (bounce_count x) (last_value x)
    (spin_phase x) (looping_mode x) (envelope_active x).

Definition set_freq_float (x : t_physicslfo) (v : R) : t_physicslfo :=
  mk_physicslfo (phase x) (sr x) (sr_inv x) v (type_float x)
    (physics_float x) (damping_float x) (freq_has_signal x)
    (type_has_signal x) (physics_has_signal x) (damping_has_signal x)
    (velocity x) (acceleration x) (energy x) (bounce_count x) (last_value x)
    (spin_phase x) (looping_mode x) (envelope_active x).

Definition set_type_float (x : t_physicslfo) (v : R) : t_physicslfo :=
  mk_physicslfo (phase x) (sr x) (sr_inv x) (freq_float x) v
    (physics_float x) (damping_float x) (freq_has_signal x)
    (type_has_signal x) (physics_has_signal x) (damping_has_signal x)
    (velocity x) (acceleration x) (energy x) (bounce_count x) (last_value x)
    (spin_phase x) (looping_mode x) (envelope_active x).

Definition set_physics_float (x : t_physicslfo) (v : R) : t_physicslfo :=
  mk_physicslfo (phase x) (sr x) (sr_inv x) (freq_float x) (type_float x)
    v (damping_float x) (freq_has_signal x)
    (type_has_signal x) (physics_has_signal x) (damping_has_signal x)
    (velocity x) (acceleration x) (energy x) (bounce_count x) (last_value x)
    (spin_phase x) (looping_mode x) (envelope_active x).

Definition set_damping_float (x : t_physicslfo) (v : R) : t_physicslfo :=
  mk_physicslfo (phase x) (sr x) (sr_inv x) (freq_float x) (type_float x)
    (physics_float x) v (freq_has_signal x)
    (type_has_signal x) (physics_has_signal x) (damping_has_signal x)
    (velocity x) (acceleration x) (energy x) (bounce_count x) (last_value x)
    (spin_phase x) (looping_mode x) (envelope_active x).

Definition set_has_signal (x : t_physicslfo) (c0 c1 c2 c3 : Z)
  : t_physicslfo :=
  mk_physicslfo (phase x) (sr x) (sr_inv x) (freq_float x) (type_float x)
    (physics_float x) (damping_float x) c0 c1 c2 c3
    (velocity x) (acceleration x) (energy x) (bounce_count x) (last_value x)
    (spin_phase x) (looping_mode x) (envelope_active x).

Definition set_velocity (x : t_physicslfo) (v : R) : t_physicslfo :=
  mk_physicslfo (phase x) (sr x) (sr_inv x) (freq_float x) (type_float x)
    (physics_float x) (damping_float x) (freq_has_signal x)
    (type_has_signal x) (physics_has_signal x) (damping_has_signal x)
    v (acceleration x) (energy x) (bounce_count x) (last_value x)
    (spin_phase x) (looping_mode x) (envelope_active x).

Definition set_acceleration (x : t_physicslfo) (v : R) : t_physicslfo :=
  mk_physicslfo (phase x) (sr x) (sr_inv x) (freq_float x) (type_float x)
    (physics_float x) (damping_float x) (freq_has_signal x)
    (type_has_signal x) (physics_has_signal x) (damping_has_signal x)
    (velocity x) v (energy x) (bounce_count x) (last_value x)
    (spin_phase x) (looping_mode x) (envelope_active x).

Definition set_energy (x : t_physicslfo) (v : R) : t_physicslfo :=
  mk_physicslfo (phase x) (sr x) (sr_inv x) (freq_float x) (type_float x)
    (physics_float x) (damping_float x) (freq_has_signal x)
    (type_has_signal x) (physics_has_signal x) (damping_has_signal x)
    (velocity x) (acceleration x) v (bounce_count x) (last_value x)
    (spin_phase x) (looping_mode x) (envelope_active x).

Definition set_bounce_count (x : t_physicslfo) (v : R) : t_physicslfo :=
  mk_physicslfo (phase x) (sr x) (sr_inv x) (freq_float x) (type_float x)
    (physics_float x) (damping_float x) (freq_has_signal x)
    (type_has_signal x) (physics_has_signal x) (damping_has_signal x)
    (velocity x) (acceleration x) (energy x) v (last_value x)
    (spin_phase x) (looping_mode x) (envelope_active x).

Definition set_last_value (x : t_physicslfo) (v : R) : t_physicslfo :=
  mk_physicslfo (phase x) (sr x) (sr_inv x) (freq_float x) (type_float x)
    (physics_float x) (damping_float x) (freq_has_signal x)
    (type_has_signal x) (physics_has_signal x) (damping_has_signal x)
    (velocity x) (acceleration x) (energy x) (bounce_count x) v
    (spin_phase x) (looping_mode x) (envelope_active x).

Definition set_spin_phase (x : t_physicslfo) (v : R) : t_physicslfo :=
  mk_physicslfo (phase x) (sr x) (sr_inv x) (freq_float x) (type_float x)
    (physics_float x) (damping_float x) (freq_has_signal x)
    (type_has_signal x) (physics_has_signal x) (damping_has_signal x)
    (velocity x) (acceleration x) (energy x) (bounce_count x) (last_value x)
    v (looping_mode x) (envelope_active x).

Definition set_looping_mode (x : t_physicslfo) (v : Z) : t_physicslfo :=
  mk_physicslfo (phase x) (sr x) (sr_inv x) (freq_float x) (type_float x)
    (physics_float x) (damping_float x) (freq_has_signal x)
    (type_has_signal x) (physics_has_signal x) (damping_has_signal x)
    (velocity x) (acceleration x) (energy x) (bounce_count x) (last_value x)
    (spin_phase x) v (envelope_active x).

Definition set_envelope_active (x : t_physicslfo) (v : Z) : t_physicslfo :=
  mk_physicslfo (phase x) (sr x) (sr_inv x) (freq_float x) (type_float x)
    (physics_float x) (damping_float x) (freq_has_signal x)
    (type_has_signal x) (physics_has_signal x) (damping_has_signal x)
    (velocity x) (acceleration x) (energy x) (bounce_count x) (last_value x)
    (spin_phase x) (looping_mode x) v.

(** ** Helper functions *)

Definition reset_physics_state (x : t_physicslfo) : t_physicslfo :=
  let x := set_velocity x 0.0 in
  let x := set_acceleration x 0.0 in
  let x := set_energy x 1.0 in
  let x := set_bounce_count x 0.0 in
  set_spin_phase x 0.0.

Open Scope string_scope.

(** The text [print_physics_info] posts to the Max console. *)
Definition print_physics_info (type : Z) : list string :=
  match type with
  | 0%Z => ["physicslfo~: Type 0 - BOUNCE | Param: bounce curve (0=droopy/slow, 1=sharp/fast) | Damping: energy loss rate"]
  | 1%Z => ["physicslfo~: Type 1 - DAMPED DECAY | Param: vibration frequency (0=slow, 1=fast) | Damping: decay rate (0=long ring, 1=quick stop)"]
  | 2%Z => ["physicslfo~: Type 2 - ENHANCED BOUNCE+SPIN | Param: complex spin rate & intensity (0=simple, 1=complex) | Damping: energy loss rate"]
  | 3%Z => ["physicslfo~: Type 3 - OVERSHOOT (settles) | Param: overshoot intensity (0=gentle, 1=dramatic) | Damping: settling speed"]
  | 4%Z => ["physicslfo~: Type 4 - MULTI-BOUNCE (stops) | Param: bounces per cycle (0=few, 1=many) | Damping: how quickly it stops"]
  | 5%Z => ["physicslfo~: Type 5 - WOBBLE (settles) | Param: frequency spread (0=simple, 1=complex) | Damping: settling speed"]
  | _ => ["physicslfo~: Unknown physics type"]
  end.

Definition phase_rejected : string :=
  "physicslfo~: phase message only works in looping mode (send 'looping 1' first)".

Close Scope string_scope.

(** ** Physics simulation functions

    Each returns the object after the call and the sample. *)

Definition simulate_bounce (x : t_physicslfo) (t param damping : R)
  : t_physicslfo * R :=
  let curve_power := 0.5 + param * 3.0 in
  let decay_factor := 1.0 - (damping * t * 1.5) in
  let bounce_height := energy x * fmax 0.1 decay_factor in
  let height := bounce_height * (1.0 - pow t curve_power) in
  if Rle_dec height 0.0 then
    let height := 0.0 in
    let x := set_energy x (energy x * (1.0 - damping * 0.8)) in
    let x := set_bounce_count x (bounce_count x + 1.0) in
    (x, CLAMP height 0.0 1.0)
  else (x, CLAMP height 0.0 1.0).

Definition simulate_elastic (x : t_physicslfo) (t tension damping : R)
  : t_physicslfo * R :=
  let osc_frequency := 3.0 + tension * 12.0 in
  let decay_rate := 1.0 + damping * 4.0 in
  let decay_envelope := exp (- decay_rate * t) in
  let oscillation := sin (2.0 * PI * osc_frequency * t) in
  let freq_drift := 1.0 - (t * 0.1 * tension) in
  let freq_drift := fmax 0.8 freq_drift in
  let oscillation := sin (2.0 * PI * osc_frequency * freq_drift * t) in
  let result := decay_envelope * oscillation in
  let result := (result + 1.0) * 0.5 in
  let result := result * decay_envelope in
  (x, result).

Definition simulate_bounce_spin (x : t_physicslfo) (t param damping : R)
  : t_physicslfo * R :=
  let curve_power := 0.3 + param * 2.5 in
  let decay_factor := 1.0 - (damping * t * 1.0) in
  let bounce_height := energy x * fmax 0.15 decay_factor in
  let base_bounce := bounce_height * (1.0 - pow t curve_power) in
  let primary_spin_freq := 3.0 + param * 12.0 in
  let secondary_spin_freq := 1.5 + param * 6.0 in
  let primary_spin := sin (2.0 * PI * primary_spin_freq * t) in
  let secondary_spin := sin (2.0 * PI * secondary_spin_freq * t + PI / 3) in
  let complex_spin := (primary_spin * 0.7) + (secondary_spin * 0.3) in
  let spin_base_influence := 0.3 + param * 0.4 in
  let energy_boost := 1.0 + (energy x * 0.5) in
  let spin_influence := spin_base_influence * base_bounce * energy_boost in
  let wobble_freq := 0.5 + param * 1.5 in
  let wobble := sin (2.0 * PI * wobble_freq * t) * 0.15 * param in
  let final_height :=
    base_bounce + (complex_spin * spin_influence) + (wobble * base_bounce) in
  if Rle_dec final_height 0.0 then
    let final_height := 0.0 in
    let x := set_energy x (energy x * (1.0 - damping * 0.5)) in
    let x := set_bounce_count x (bounce_count x + 1.0) in
    (x, fmax 0.0 final_height)
  else (x, fmax 0.0 final_height).

Definition simulate_elastic_overshoot (x : t_physicslfo)
  (t tension damping : R) : t_physicslfo * R :=
  let freq := 1.0 + tension * 4.0 in
  let overshoot_amount := 0.3 + tension * 0.4 in
  let equilibrium := 0.6 in
  let approach_rate := 2.0 + damping * 3.0 in
  let base_approach := equilibrium * (1.0 - exp (- approach_rate * t)) in
  let overshoot_decay := exp (- damping * t * 2.5) in
  let overshoot_osc :=
    sin (2.0 * PI * freq * t) * overshoot_amount * overshoot_decay in
  let overshoot_osc :=
    if Rlt_dec overshoot_decay 0.01 then 0.0 else overshoot_osc in
  (x, base_approach + overshoot_osc).

Definition simulate_multibounce (x : t_physicslfo) (t param damping : R)
  : t_physicslfo * R :=
  let bounces_per_cycle := 2.0 + param * 6.0 in
  let segment_phase := fmod (t * bounces_per_cycle) 1.0 in
  let current_bounce := long_of_double (t * bounces_per_cycle) in
  let height := 4.0 * segment_phase * (1.0 - segment_phase) in
  let energy_loss_per_bounce := 0.5 + damping * 0.4 in
  let bounce_amplitude := pow energy_loss_per_bounce (IZR current_bounce) in
  let stop_threshold := 0.02 in
  if Rlt_dec bounce_amplitude stop_threshold then (x, 0.0)
  else (x, height * bounce_amplitude).

Definition simulate_wobble (x : t_physicslfo) (t tension damping : R)
  : t_physicslfo * R :=
  let base_freq := 1.5 + tension * 2.5 in
  let freq_spread := tension * 0.8 in
  let freq1 := base_freq in
  let freq2 := base_freq + freq_spread in
  let equilibrium := 0.5 in
  let approach_rate := 1.5 + damping * 2.0 in
  let base_level := equilibrium * (1.0 - exp (- approach_rate * t)) in
  let wobble_decay := exp (- damping * t * 1.2) in
  let osc1 := sin (2.0 * PI * freq1 * t) in
  let osc2 := sin (2.0 * PI * freq2 * t) in
  let beating := (osc1 + osc2 * 0.8) / 1.8 in
  let wobble_amplitude := 0.3 * wobble_decay in
  let wobble_amplitude :=
    if Rlt_dec wobble_decay 0.01 then 0.0 else wobble_amplitude in
  let result := base_level + (beating * wobble_amplitude) in
  (x, result).

(** The [switch (type)] of the perform routine.  [value] is initialised to
    0.0 and stays so when no case matches. *)
Definition simulate (type : Z) (x : t_physicslfo) (t param damping : R)
  : t_physicslfo * R :=
  match type with
  | 0%Z => simulate_bounce x t param damping
  | 1%Z => simulate_elastic x t param damping
  | 2%Z => simulate_bounce_spin x t param damping
  | 3%Z => simulate_elastic_overshoot x t param damping
  | 4%Z => simulate_multibounce x t param damping
  | 5%Z => simulate_wobble x t param damping
  | _ => (x, 0.0)
  end.

(** The amplitude [simulate_multibounce] computes before its stop test. *)
Definition bounce_amplitude (t param damping : R) : R :=
  pow (0.5 + damping * 0.4) (IZR (long_of_double (t * (2.0 + param * 6.0)))).

(** ** The perform routine *)

(** One frame of the four input vectors. *)
Record sample_in : Type := mk_sample_in {
  freq_in : R;
  type_in : R;
  physics_in : R;
  damping_in : R
}.

(** What one iteration of the sample loop does, as seen from outside: the
    phase it hands to the simulation function, whether the cycle-completion
    branch (wrap and reset) was taken, and the sample written to the outlet. *)
Record sample_out : Type := mk_sample_out {
  sim_phase : R;
  sim_wrapped : bool;
  out_value : R
}.

(** [while (phase < 0.0) phase += 1.0;] with an iteration budget. *)
Fixpoint add_while_negative (fuel : nat) (phase : R) : R :=
  match fuel with
  | O => phase
  | S fuel' =>
      if Rlt_dec phase 0.0 then add_while_negative fuel' (phase + 1.0)
      else phase
  end.

(** The budget is the number of iterations the loop needs,
    [- floor phase] for a negative phase (see [wrap_negative_done]). *)
Definition wrap_negative (phase : R) : R :=
  add_while_negative (Z.to_nat (- Int_part phase)) phase.

(** The mode-specific phase update of the sample loop. *)
Definition phase_update (x : t_physicslfo) (phase freq sr_inv : R)
  : t_physicslfo * R * bool :=
  if truthy (looping_mode x) then
    let phase := phase + freq * sr_inv in
    if Rge_dec phase 1.0 then
      let phase := phase - 1.0 in
      let x := reset_physics_state x in
      (x, wrap_negative phase, true)
    else (x, wrap_negative phase, false)
  else
    if truthy (envelope_active x) then
      let phase := phase + freq * sr_inv in
      if Rge_dec phase 1.0 then (set_envelope_active x 0, phase, false)
      else (x, phase, false)
    else
      let phase := phase + freq * sr_inv in
      (x, phase, false).

(** The body of [while (n--)]. *)
Definition perform_sample (x : t_physicslfo) (phase sr_inv : R)
  (s : sample_in) : t_physicslfo * R * sample_out :=
  let freq := if truthy (freq_has_signal x) then freq_in s
              else freq_float x in
  let type_val := if truthy (type_has_signal x) then type_in s
                  else type_float x in
  let physics_param := if truthy (physics_has_signal x) then physics_in s
                       else physics_float x in
  let damping := if truthy (damping_has_signal x) then damping_in s
                 else damping_float x in
  let freq := CLAMP freq 0.0 1000.0 in
  let type := long_of_double (CLAMP type_val 0.0 5.0) in
  let physics_param := CLAMP physics_param 0.0 1.0 in
  let damping := CLAMP damping 0.0 1.0 in
  let '(x, phase, wrapped) := phase_update x phase freq sr_inv in
  let '(x, value) := simulate type x phase physics_param damping in
  let x := set_last_value x value in
  (x, phase, mk_sample_out phase wrapped value).

Fixpoint perform_loop (x : t_physicslfo) (phase sr_inv : R)
  (ins : list sample_in) : t_physicslfo * R * list sample_out :=
  match ins with
  | [] => (x, phase, [])
  | s :: ins' =>
      let '(x, phase, o) := perform_sample x phase sr_inv s in
      let '(x, phase, os) := perform_loop x phase sr_inv ins' in
      (x, phase, o :: os)
  end.

(** [physicslfo_perform64] on a vector of [length ins] frames. *)
Definition physicslfo_perform64 (x : t_physicslfo) (ins : list sample_in)
  : t_physicslfo * list sample_out :=
  let phase := phase x in
  let sr_inv := sr_inv x in
  let '(x, phase, outs) := perform_loop x phase sr_inv ins in
  (set_phase x phase, outs).

(** Successive signal vectors. *)
Fixpoint perform_blocks (x : t_physicslfo) (blocks : list (list sample_in))
  : t_physicslfo * list sample_out :=
  match blocks with
  | [] => (x, [])
  | b :: blocks' =>
      let '(x, os) := physicslfo_perform64 x b in
      let '(x, os') := perform_blocks x blocks' in
      (x, os ++ os')
  end.

(** ** Messages *)

Definition physicslfo_dsp64 (x : t_physicslfo) (count : Z * Z * Z * Z)
  (samplerate : R) : t_physicslfo :=
  let '(c0, c1, c2, c3) := count in
  let x := set_sr x samplerate in
  let x := set_sr_inv x (1.0 / samplerate) in
  set_has_signal x c0 c1 c2 c3.

(** [inlet] is the value of [proxy_getinlet]. *)
Definition physicslfo_float (x : t_physicslfo) (inlet : Z) (f : R)
  : t_physicslfo * list string :=
  match inlet with
  | 0%Z => (set_freq_float x (CLAMP f 0.0 1000.0), [])
  | 1%Z =>
      let new_type := long_of_double (CLAMP f 0.0 5.0) in
      (set_type_float x (IZR new_type), print_physics_info new_type)
  | 2%Z => (set_physics_float x (CLAMP f 0.0 1.0), [])
  | 3%Z => (set_damping_float x (CLAMP f 0.0 1.0), [])
  | _ => (x, [])
  end.

Definition physicslfo_int (x : t_physicslfo) (inlet : Z) (n : Z)
  : t_physicslfo * list string :=
  match inlet with
  | 0%Z => (set_freq_float x (CLAMP (IZR n) 0.0 1000.0), [])
  | 1%Z =>
      let new_type := CLAMP_long n 0 5 in
      (set_type_float x (IZR new_type), print_physics_info new_type)
  | 2%Z => (set_physics_float x (CLAMP (IZR n) 0.0 1.0), [])
  | 3%Z => (set_damping_float x (CLAMP (IZR n) 0.0 1.0), [])
  | _ => (x, [])
  end.

Definition physicslfo_bang (x : t_physicslfo) (inlet : Z) : t_physicslfo :=
  if (inlet =? 0)%Z then
    if truthy (looping_mode x) then
      let x := set_phase x 0.0 in
      reset_physics_state x
    else
      let x := set_phase x 0.0 in
      let x := reset_physics_state x in
      set_envelope_active x 1
  else x.

Definition physicslfo_looping (x : t_physicslfo) (n : Z) : t_physicslfo :=
  let x := set_looping_mode x (if truthy n then 1 else 0)%Z in
  if negb (truthy (looping_mode x)) then set_envelope_active x 0
  else x.

Definition physicslfo_phase (x : t_physicslfo) (f : R)
  : t_physicslfo * list string :=
  if truthy (looping_mode x) then
    let x := set_phase x (CLAMP f 0.0 1.0) in
    (reset_physics_state x, [])
  else (x, [phase_rejected]).

(** ** Creation *)

Inductive t_atom : Type :=
| A_LONG (n : Z)
| A_FLOAT (f : R)
| A_SYM.

Definition is_long (a : t_atom) : bool :=
  match a with A_LONG _ => true | _ => false end.

Definition is_number (a : t_atom) : bool :=
  match a with A_LONG _ | A_FLOAT _ => true | A_SYM => false end.

Definition atom_getlong (a : t_atom) : Z :=
  match a with
  | A_LONG n => n
  | A_FLOAT f => long_of_double f
  | A_SYM => 0%Z
  end.

Definition atom_getfloat (a : t_atom) : R :=
  match a with
  | A_LONG n => IZR n
  | A_FLOAT f => f
  | A_SYM => 0.0
  end.

(** The object as [object_alloc] hands it over: every field zero. *)
Definition object_alloc : t_physicslfo :=
  mk_physicslfo 0 0 0 0 0 0 0 0 0 0 0 0 0 0 0 0 0 0 0.

(** [physicslfo_new]; [sys_sr] is the value of [sys_getsr ()]. *)
Definition physicslfo_new (sys_sr : R) (argv : list t_atom)
  : t_physicslfo * list string :=
  let x := object_alloc in
  let x := set_phase x 0.0 in
  let x := set_sr x sys_sr in
  let x := set_sr_inv x (1.0 / sr x) in
  let x := set_freq_float x 1.0 in
  let x := set_type_float x 0.0 in
  let x := set_physics_float x 0.5 in
  let x := set_damping_float x 0.1 in
  let x := set_has_signal x 0 0 0 0 in
  let x := reset_physics_state x in
  let x := set_looping_mode x 1 in
  let x := set_envelope_active x 0 in
  let x :=
    match nth_error argv 0 with
    | Some a =>
        if is_long a
        then set_type_float x (IZR (CLAMP_long (atom_getlong a) 0 5))
        else x
    | None => x
    end in
  let x :=
    match nth_error argv 1 with
    | Some a =>
        if is_number a
        then set_physics_float x (CLAMP (atom_getfloat a) 0.0 1.0)
        else x
    | None => x
    end in
  let x :=
    match nth_error argv 2 with
    | Some a =>
        if is_number a
        then set_damping_float x (CLAMP (atom_getfloat a) 0.0 1.0)
        else x
    | None => x
    end in
  (x, print_physics_info (long_of_double (type_float x))).

(** Everything that can happen to an object after its creation. *)
Inductive event : Type :=
| EvDsp (count : Z * Z * Z * Z) (samplerate : R)
| EvPerform (ins : list sample_in)
| EvFloat (inlet : Z) (f : R)
| EvInt (inlet : Z) (n : Z)
| EvBang (inlet : Z)
| EvLooping (n : Z)
| EvPhase (f : R).

Definition apply_event (x : t_physicslfo) (e : event) : t_physicslfo :=
  match e with
  | EvDsp count samplerate => physicslfo_dsp64 x count samplerate
  | EvPerform ins => fst (physicslfo_perform64 x ins)
  | EvFloat inlet f => fst (physicslfo_float x inlet f)
  | EvInt inlet n => fst (physicslfo_int x inlet n)
  | EvBang inlet => physicslfo_bang x inlet
  | EvLooping n => physicslfo_looping x n
  | EvPhase f => fst (physicslfo_phase x f)
  end.

Definition apply_events (x : t_physicslfo) (es : list event)
  : t_physicslfo :=
  fold_left apply_event es x.

(** ** Objects used as concrete inputs *)

(** [physicslfo~] created without arguments, audio switched on at 48 kHz
    with no signal connected. *)
Definition fresh : t_physicslfo :=
  physicslfo_dsp64 (fst (physicslfo_new 48000 [])) (0, 0, 0, 0)%Z 48000.

(** The same object after [looping 0]. *)
Definition fresh_envelope : t_physicslfo := physicslfo_looping fresh 0.

(** ** Vocabulary for runs *)

(** The rate the sample loop uses on frame [s], after clamping. *)
Definition rate_of (x : t_physicslfo) (s : sample_in) : R :=
  CLAMP (if truthy (freq_has_signal x) then freq_in s else freq_float x)
    0.0 1000.0.

(** The simulation type, shape and damping the sample loop uses on frame
    [s], after clamping. *)
Definition type_of (x : t_physicslfo) (s : sample_in) : Z :=
  long_of_double
    (CLAMP (if truthy (type_has_signal x) then type_in s else type_float x)
       0.0 5.0).

Definition param_of (x : t_physicslfo) (s : sample_in) : R :=
  CLAMP (if truthy (physics_has_signal x) then physics_in s
         else physics_float x) 0.0 1.0.

Definition damping_of (x : t_physicslfo) (s : sample_in) : R :=
  CLAMP (if truthy (damping_has_signal x) then damping_in s
         else damping_float x) 0.0 1.0.

(** The fields the sample loop never writes. *)
Definition same_config (x y : t_physicslfo) : Prop :=
  sr x = sr y /\ sr_inv x = sr_inv y
  /\ freq_float x = freq_float y /\ type_float x = type_float y
  /\ physics_float x = physics_float y /\ damping_float x = damping_float y
  /\ freq_has_signal x = freq_has_signal y
  /\ type_has_signal x = type_has_signal y
  /\ physics_has_signal x = physics_has_signal y
  /\ damping_has_signal x = damping_has_signal y
  /\ looping_mode x = looping_mode y.

(** Number of frames on which the wrap-and-reset branch ran. *)
Definition count_wraps (outs : list sample_out) : nat :=
  length (filter sim_wrapped outs).


(** "Every phase handed to a simulation function lies in [0,1)." *)
Definition phases_in_unit (outs : list sample_out) : Prop :=
  Forall (fun o => 0 <= sim_phase o < 1) outs.

(** "Every sample lies in [0,1]." *)
Definition in_unit (v : R) : Prop := 0 <= v <= 1.

(** A frame of silence on all four inlets. *)
Definition silent : sample_in := mk_sample_in 0 0 0 0.


(** A new object with the rate set to 1000 Hz, run at a sample rate of
    500 Hz. *)
Definition slow_host : t_physicslfo :=
  apply_events (fst (physicslfo_new 500 []))
    [EvDsp (0, 0, 0, 0)%Z 500; EvFloat 0 1000].





(** Bounce with spin at full shape and no damping, rate 240 Hz, in looping
    mode at 48 kHz. *)
Definition spin_setup : t_physicslfo :=
  apply_events fresh [EvInt 1 2; EvFloat 2 1; EvFloat 3 0; EvFloat 0 240].

(** The object and the frames put out while a sequence of events is
    applied to it. *)
Fixpoint run (x : t_physicslfo) (es : list event)
  : t_physicslfo * list sample_out :=
  match es with
  | [] => (x, [])
  | e :: es' =>
      let os :=
        match e with
        | EvPerform ins => snd (physicslfo_perform64 x ins)
        | _ => []
        end in
      let '(x', os') := run (apply_event x e) es' in
      (x', os ++ os')
  end.

(** Events that neither restart nor leave an envelope run: anything but a
    bang on the first inlet and [looping n] with [n] not 0; the host keeps
    the sample rate positive. *)
Definition within_envelope_run (e : event) : Prop :=
  match e with
  | EvDsp _ samplerate => 0 < samplerate
  | EvBang inlet => inlet <> 0%Z
  | EvLooping n => n = 0%Z
  | EvPerform _ | EvFloat _ _ | EvInt _ _ | EvPhase _ => True
  end.

(** Events that keep an object in looping mode, with the host above
    1000 Hz. *)
Definition within_looping (e : event) : Prop :=
  match e with
  | EvDsp _ samplerate => 1000 < samplerate
  | EvLooping n => n <> 0%Z
  | EvPerform _ | EvFloat _ _ | EvInt _ _ | EvBang _ | EvPhase _ => True
  end.

(** The held scalars are in the domains of their inlets: rate in
    [0,1000] Hz, type a whole number from 0 to 5, shape and damping in
    [0,1]. *)
Definition scalars_in_domain (x : t_physicslfo) : Prop :=
  0 <= freq_float x <= 1000
  /\ (exists k : Z, (0 <= k <= 5)%Z /\ type_float x = IZR k)
  /\ 0 <= physics_float x <= 1
  /\ 0 <= damping_float x <= 1.

(** bounce_count is a whole number, the fields no simulation uses are 0, and
    the two mode flags are 0 or 1. *)
Definition bookkeeping_sound (x : t_physicslfo) : Prop :=
  (exists n : nat, bounce_count x = INR n)
  /\ velocity x = 0 /\ acceleration x = 0 /\ spin_phase x = 0
  /\ (looping_mode x = 0%Z \/ looping_mode x = 1%Z)
  /\ (envelope_active x = 0%Z \/ envelope_active x = 1%Z).

(** The sum of the clamped rates over the frames of a vector. *)
Definition total_rate (x : t_physicslfo) (ins : list sample_in) : R :=
  fold_right (fun s acc => rate_of x s + acc) 0 ins.

(** Whether the inlet a message is addressed to has a signal connected
    (messages to other inlets are ignored by the handlers). *)
Definition inlet_has_signal (x : t_physicslfo) (inlet : Z) : bool :=
  match inlet with
  | 0%Z => truthy (freq_has_signal x)
  | 1%Z => truthy (type_has_signal x)
  | 2%Z => truthy (physics_has_signal x)
  | 3%Z => truthy (damping_has_signal x)
  | _ => true
  end.

(** The object with other values in energy and bounce_count. *)
Definition with_history (x : t_physicslfo) (e b : R) : t_physicslfo :=
  set_bounce_count (set_energy x e) b.

(** ** The phase accumulator in binary64

    The looping branch of the sample loop once more, on IEEE 754 binary64
    numbers with round-to-nearest, the arithmetic of a C [double]: used to
    check that rounding does not move the frame on which the phase wraps. *)
Module Binary64.

Import PrimFloat.
Local Open Scope float_scope.

Definition CLAMP (a lo hi : float) : float :=
  if PrimFloat.ltb lo a then (if PrimFloat.ltb a hi then a else hi) else lo.

(** [while (phase < 0.0) phase += 1.0;], [None] when the budget is used
    up. *)
Fixpoint add_while_negative (fuel : nat) (phase : float) : option float :=
  if PrimFloat.ltb phase 0.0 then
    match fuel with
    | O => None
    | S fuel' => add_while_negative fuel' (phase + 1.0)
    end
  else Some phase.

Definition looping_phase_update (fuel : nat) (phase freq sr_inv : float)
  : option (float * bool) :=
  let phase := phase + freq * sr_inv in
  if PrimFloat.leb 1.0 phase then
    let phase := phase - 1.0 in
    match add_while_negative fuel phase with
    | Some phase => Some (phase, true)
    | None => None
    end
  else
    match add_while_negative fuel phase with
    | Some phase => Some (phase, false)
    | None => None
    end.

(** The phase, the number of frames done, the frames on which the phase
    wrapped (latest first), and whether every negative-phase loop ended
    within its budget. *)
Record accumulator : Type := mk_accumulator {
  acc_phase : float;
  acc_frame : N;
  acc_wraps : list N;
  acc_done : bool
}.

Definition looping_frame (freq sr_inv : float) (a : accumulator)
  : accumulator :=
  let frame := N.succ (acc_frame a) in
  match looping_phase_update 0%nat (acc_phase a)
          (CLAMP freq 0.0 1000.0) sr_inv with
  | Some (phase, true) =>
      mk_accumulator phase frame (frame :: acc_wraps a)%list (acc_done a)
  | Some (phase, false) =>
      mk_accumulator phase frame (acc_wraps a) (acc_done a)
  | None => mk_accumulator (acc_phase a) frame (acc_wraps a) false
  end.

Definition looping_frames (n : N) (phase freq samplerate : float)
  : accumulator :=
  N.iter n (looping_frame freq (1.0 / samplerate))
    (mk_accumulator phase 0%N nil true).

(** One second at 48 kHz with the rate held at 1 Hz, from phase 0. *)
Definition one_second : accumulator := looping_frames 48000 0.0 1.0 48000.0.

(** A phase above 0 and below 2^-40. *)
Definition rounding_residue (phase : float) : bool :=
  PrimFloat.ltb 0.0 phase && PrimFloat.ltb phase 0x1p-40.

End Binary64.

(** * Properties *)

(** ** The C helpers *)

Lemma CLAMP_bounds (a lo hi : R) :
  lo <= hi -> lo <= CLAMP a lo hi <= hi.
Proof.
  intros Hle. unfold CLAMP.
  destruct (Rgt_dec a lo); [destruct (Rlt_dec a hi)|]; lra.
Qed.

Lemma CLAMP_inside (a lo hi : R) :
  lo <= a <= hi -> CLAMP a lo hi = a.
Proof.
  intros Hin. unfold CLAMP.
  destruct (Rgt_dec a lo); [destruct (Rlt_dec a hi)|]; lra.
Qed.

Lemma fmax_ge_l (a b : R) : a <= fmax a b.
Proof. unfold fmax. destruct (Rle_dec a b); lra. Qed.

Lemma fmax_ge_r (a b : R) : b <= fmax a b.
Proof. unfold fmax. destruct (Rle_dec a b); lra. Qed.

Lemma fmax_le (a b c : R) : a <= c -> b <= c -> fmax a b <= c.
Proof. unfold fmax. destruct (Rle_dec a b); lra. Qed.

Lemma truthy_true (z : Z) : truthy z = true <-> z <> 0%Z.
Proof.
  unfold truthy. destruct (Z.eqb_spec z 0); simpl; split; congruence.
Qed.

Lemma truthy_false (z : Z) : truthy z = false <-> z = 0%Z.
Proof.
  unfold truthy. destruct (Z.eqb_spec z 0); simpl; split; congruence.
Qed.

Lemma Int_part_bounds (r : R) : IZR (Int_part r) <= r < IZR (Int_part r) + 1.
Proof. destruct (base_Int_part r). lra. Qed.

Lemma Int_part_mono (a b : R) : a <= b -> (Int_part a <= Int_part b)%Z.
Proof.
  intros Hab.
  pose proof (Int_part_bounds a) as Ha. pose proof (Int_part_bounds b) as Hb.
  assert (Hlt : IZR (Int_part a) < IZR (Int_part b + 1)).
  { rewrite plus_IZR. lra. }
  apply lt_IZR in Hlt. lia.
Qed.

Lemma Int_part_IZR (z : Z) : Int_part (IZR z) = z.
Proof. symmetry. apply Int_part_spec. lra. Qed.

Lemma long_of_double_nonneg (d : R) : 0 <= d -> long_of_double d = Int_part d.
Proof.
  intros Hd. unfold long_of_double.
  destruct (Rle_dec 0 d); [reflexivity|lra].
Qed.

Lemma long_of_double_sign (d : R) : d <= 0 -> (long_of_double d <= 0)%Z.
Proof.
  intros Hd. unfold long_of_double. destruct (Rle_dec 0 d) as [H0|H0].
  - assert (d = 0) as -> by lra. change 0 with (IZR 0).
    rewrite Int_part_IZR. lia.
  - pose proof (Int_part_mono 0 (- d) ltac:(lra)) as Hm.
    change 0 with (IZR 0) in Hm. rewrite Int_part_IZR in Hm. lia.
Qed.



Lemma add_while_negative_id (fuel : nat) (phase : R) :
  0 <= phase -> add_while_negative fuel phase = phase.
Proof.
  intros Hp. destruct fuel; [reflexivity|]. cbn [add_while_negative].
  destruct (Rlt_dec phase 0.0); [lra|reflexivity].
Qed.

Lemma wrap_negative_id (phase : R) : 0 <= phase -> wrap_negative phase = phase.
Proof. apply add_while_negative_id. Qed.

(** ** Messages *)

(** C6: a phase-set message received in envelope mode only posts the
    diagnostic; the object is returned as it was, so phase, energy,
    bounce_count, spin_phase, velocity, acceleration, both mode flags and all
    held scalars are unchanged, and the requested value is discarded. *)
Theorem phase_message_rejected_in_envelope_mode (x : t_physicslfo) (f : R) :
  looping_mode x = 0%Z ->
  physicslfo_phase x f = (x, [phase_rejected]).
Proof.
  intros Hmode. unfold physicslfo_phase. rewrite Hmode. reflexivity.
Qed.

Lemma phase_message_rejected_witness :
  physicslfo_phase fresh_envelope 0.25 = (fresh_envelope, [phase_rejected]).
Proof.
  apply (phase_message_rejected_in_envelope_mode fresh_envelope 0.25).
  reflexivity.
Defined.

(** C8: the looping message writes the mode flags only.  [looping 0] stores
    0 in looping_mode and in envelope_active; [looping n] with [n] not 0
    stores 1 in looping_mode and nothing else.  In both directions phase,
    energy, bounce_count, spin_phase, velocity, acceleration, last_value, the
    sample rate, the held scalars and the connection flags keep their
    values. *)
Theorem looping_message_frame (x : t_physicslfo) (n : Z) :
  physicslfo_looping x n =
    (if (n =? 0)%Z then set_envelope_active (set_looping_mode x 0) 0
     else set_looping_mode x 1)
  /\ phase (physicslfo_looping x n) = phase x
  /\ energy (physicslfo_looping x n) = energy x
  /\ bounce_count (physicslfo_looping x n) = bounce_count x
  /\ spin_phase (physicslfo_looping x n) = spin_phase x
  /\ velocity (physicslfo_looping x n) = velocity x
  /\ acceleration (physicslfo_looping x n) = acceleration x
  /\ last_value (physicslfo_looping x n) = last_value x
  /\ sr (physicslfo_looping x n) = sr x
  /\ sr_inv (physicslfo_looping x n) = sr_inv x
  /\ freq_float (physicslfo_looping x n) = freq_float x
  /\ type_float (physicslfo_looping x n) = type_float x
  /\ physics_float (physicslfo_looping x n) = physics_float x
  /\ damping_float (physicslfo_looping x n) = damping_float x
  /\ freq_has_signal (physicslfo_looping x n) = freq_has_signal x
  /\ type_has_signal (physicslfo_looping x n) = type_has_signal x
  /\ physics_has_signal (physicslfo_looping x n) = physics_has_signal x
  /\ damping_has_signal (physicslfo_looping x n) = damping_has_signal x
  /\ looping_mode (physicslfo_looping x n) = (if (n =? 0)%Z then 0 else 1)%Z
  /\ envelope_active (physicslfo_looping x n) =
       (if (n =? 0)%Z then 0%Z else envelope_active x).
Proof.
  unfold physicslfo_looping, truthy.
  destruct (n =? 0)%Z; cbn; repeat split; reflexivity.
Qed.



(** ** Powers *)

Lemma long_of_double_mono (a b : R) :
  a <= b -> (long_of_double a <= long_of_double b)%Z.
Proof.
  intros Hab. destruct (Rle_dec 0 a) as [Ha|Ha].
  - rewrite !long_of_double_nonneg by lra. now apply Int_part_mono.
  - destruct (Rle_dec 0 b) as [Hb|Hb].
    + pose proof (long_of_double_sign a ltac:(lra)) as Hs.
      rewrite (long_of_double_nonneg b Hb).
      pose proof (Int_part_mono 0 b Hb) as Hm.
      change 0 with (IZR 0) in Hm. rewrite Int_part_IZR in Hm. lia.
    + unfold long_of_double.
      destruct (Rle_dec 0 a); [lra|]. destruct (Rle_dec 0 b); [lra|].
      pose proof (Int_part_mono (- b) (- a) ltac:(lra)). lia.
Qed.

Lemma long_of_double_IZR (z : Z) : long_of_double (IZR z) = z.
Proof.
  unfold long_of_double. destruct (Rle_dec 0 (IZR z)) as [H|H].
  - apply Int_part_IZR.
  - rewrite <- opp_IZR, Int_part_IZR. lia.
Qed.

Lemma ln_nonpos (a : R) : 0 < a <= 1 -> ln a <= 0.
Proof.
  intros [Hpos [Hlt| ->]].
  - rewrite <- ln_1. left. now apply ln_increasing.
  - rewrite ln_1. lra.
Qed.

Lemma exp_mono (a b : R) : a <= b -> exp a <= exp b.
Proof.
  intros [Hlt| ->]; [left; now apply exp_increasing | lra].
Qed.

(** A base in (0,1] raised to a larger exponent gives no more. *)
Lemma Rpower_antitone (a y y' : R) :
  0 < a <= 1 -> y <= y' -> Rpower a y' <= Rpower a y.
Proof.
  intros Ha Hy. unfold Rpower. apply exp_mono.
  pose proof (ln_nonpos a Ha). nra.
Qed.

Lemma Rpower_nonpos_exponent (a y : R) :
  0 < a <= 1 -> y <= 0 -> 1 <= Rpower a y.
Proof.
  intros Ha Hy. rewrite <- (Rpower_O a) by lra.
  now apply Rpower_antitone.
Qed.

Lemma pow_pos_base (a y : R) : 0 < a -> pow a y = Rpower a y.
Proof. intros Ha. unfold pow. destruct (Rlt_dec 0 a); [reflexivity|lra]. Qed.

(** On a natural exponent [pow] is the iterated product. *)
Lemma pow_nat (a : R) (n : nat) :
  0 < a -> pow a (IZR (Z.of_nat n)) = a ^ n.
Proof.
  intros Ha. rewrite pow_pos_base by exact Ha.
  rewrite <- INR_IZR_INZ. now apply Rpower_pow.
Qed.

Lemma pow_zero_base (y : R) : 0 < y -> pow 0 y = 0.
Proof.
  intros Hy. unfold pow. destruct (Rlt_dec 0 0); [lra|].
  destruct (Req_dec_T y 0); [lra|reflexivity].
Qed.

(** ** Energy *)

Lemma simulate_dispatch (type : Z) (x : t_physicslfo) (t param damping : R) :
  simulate type x t param damping = simulate_bounce x t param damping
  \/ simulate type x t param damping = simulate_elastic x t param damping
  \/ simulate type x t param damping = simulate_bounce_spin x t param damping
  \/ simulate type x t param damping =
       simulate_elastic_overshoot x t param damping
  \/ simulate type x t param damping = simulate_multibounce x t param damping
  \/ simulate type x t param damping = simulate_wobble x t param damping
  \/ simulate type x t param damping = (x, 0.0).
Proof.
  destruct type as [|q|q]; cbn; auto 8.
  destruct q as [[[]|[]|]|[[]|[]|]|]; cbn; auto 8.
Qed.

Section Energy.

Variables (x : t_physicslfo) (t param damping : R).
Hypothesis energy_range : 0 <= energy x <= 1.
Hypothesis damping_range : 0 <= damping <= 1.

Lemma simulate_bounce_energy :
  0 <= energy (fst (simulate_bounce x t param damping)) <= energy x.
Proof.
  unfold simulate_bounce.
  match goal with |- context [Rle_dec ?h 0.0] => destruct (Rle_dec h 0.0) end;
    cbn; nra.
Qed.

Lemma simulate_bounce_spin_energy :
  0 <= energy (fst (simulate_bounce_spin x t param damping)) <= energy x.
Proof.
  unfold simulate_bounce_spin.
  match goal with |- context [Rle_dec ?h 0.0] => destruct (Rle_dec h 0.0) end;
    cbn; nra.
Qed.

Lemma simulate_elastic_state :
  fst (simulate_elastic x t param damping) = x.
Proof. reflexivity. Qed.

Lemma simulate_elastic_overshoot_state :
  fst (simulate_elastic_overshoot x t param damping) = x.
Proof. reflexivity. Qed.

Lemma simulate_multibounce_state :
  fst (simulate_multibounce x t param damping) = x.
Proof.
  unfold simulate_multibounce.
  match goal with |- context [Rlt_dec ?a ?b] => destruct (Rlt_dec a b) end;
    reflexivity.
Qed.

Lemma simulate_wobble_state :
  fst (simulate_wobble x t param damping) = x.
Proof. reflexivity. Qed.

Lemma simulate_energy (type : Z) :
  0 <= energy (fst (simulate type x t param damping)) <= energy x.
Proof.
  destruct (simulate_dispatch type x t param damping)
    as [E|[E|[E|[E|[E|[E|E]]]]]]; rewrite E.
  - apply simulate_bounce_energy.
  - rewrite simulate_elastic_state. lra.
  - apply simulate_bounce_spin_energy.
  - rewrite simulate_elastic_overshoot_state. lra.
  - rewrite simulate_multibounce_state. lra.
  - rewrite simulate_wobble_state. lra.
  - cbn. lra.
Qed.

End Energy.

Lemma reset_physics_state_energy (x : t_physicslfo) :
  energy (reset_physics_state x) = 1.
Proof. cbn. lra. Qed.

(** ** The sample loop: frame and composition *)

Ltac case_if :=
  match goal with
  | |- context [if ?c then _ else _] => destruct c eqn:?
  | H : context [if ?c then _ else _] |- _ => destruct c eqn:?
  end.

Lemma same_config_refl (x : t_physicslfo) : same_config x x.
Proof. unfold same_config. repeat split. Qed.

Lemma same_config_trans (x y z : t_physicslfo) :
  same_config x y -> same_config y z -> same_config x z.
Proof. unfold same_config. intuition congruence. Qed.

Lemma simulate_config (type : Z) (x : t_physicslfo) (t param damping : R) :
  same_config x (fst (simulate type x t param damping))
  /\ envelope_active (fst (simulate type x t param damping)) =
       envelope_active x.
Proof.
  destruct (simulate_dispatch type x t param damping)
    as [E|[E|[E|[E|[E|[E|E]]]]]]; rewrite E; clear E;
    unfold simulate_bounce, simulate_elastic, simulate_bounce_spin,
      simulate_elastic_overshoot, simulate_multibounce, simulate_wobble;
    repeat case_if; cbn; split; try reflexivity;
    unfold same_config; cbn; repeat split.
Qed.

Lemma phase_update_config (x x' : t_physicslfo) (ph f d ph' : R) (w : bool) :
  phase_update x ph f d = (x', ph', w) -> same_config x x'.
Proof.
  unfold phase_update. intros H.
  repeat case_if; inversion H; subst; unfold same_config; cbn;
    repeat split.
Qed.

Lemma perform_sample_config (x x' : t_physicslfo) (ph d ph' : R)
  (s : sample_in) (o : sample_out) :
  perform_sample x ph d s = (x', ph', o) ->
  same_config x x' /\ sim_phase o = ph'.
Proof.
  unfold perform_sample. intros H.
  destruct (phase_update x ph _ d) as [[x1 ph1] w] eqn:Hu.
  apply phase_update_config in Hu.
  match type of H with
  | context [simulate ?ty x1 ph1 ?p ?dm] =>
      pose proof (simulate_config ty x1 ph1 p dm) as [Hs _];
      destruct (simulate ty x1 ph1 p dm) as [x2 v]
  end.
  inversion H; subst; cbn in *. split; [|reflexivity].
  eapply same_config_trans; [exact Hu|].
  eapply same_config_trans; [exact Hs|].
  unfold same_config; cbn; repeat split.
Qed.

Lemma perform_loop_config (d : R) (ins : list sample_in) :
  forall (x x' : t_physicslfo) (ph ph' : R) (os : list sample_out),
    perform_loop x ph d ins = (x', ph', os) ->
    same_config x x' /\ length os = length ins.
Proof.
  induction ins as [|s ins IH]; intros x x' ph ph' os H; cbn in H.
  - inversion H; subst. split; [apply same_config_refl | reflexivity].
  - destruct (perform_sample x ph d s) as [[x1 ph1] o] eqn:Hs.
    destruct (perform_loop x1 ph1 d ins) as [[x2 ph2] os2] eqn:Hl.
    inversion H; subst. apply perform_sample_config in Hs as [Hs _].
    apply IH in Hl as [Hl Hlen]. split.
    + eapply same_config_trans; eassumption.
    + cbn. now rewrite Hlen.
Qed.

Lemma perform_loop_app (d : R) (a b : list sample_in) :
  forall (x : t_physicslfo) (ph : R),
    perform_loop x ph d (a ++ b) =
      let '(x1, ph1, o1) := perform_loop x ph d a in
      let '(x2, ph2, o2) := perform_loop x1 ph1 d b in
      (x2, ph2, o1 ++ o2).
Proof.
  induction a as [|s a IH]; intros x ph; cbn.
  - destruct (perform_loop x ph d b) as [[x2 ph2] o2]. reflexivity.
  - destruct (perform_sample x ph d s) as [[x1 ph1] o].
    rewrite IH.
    destruct (perform_loop x1 ph1 d a) as [[x2 ph2] o2].
    destruct (perform_loop x2 ph2 d b) as [[x3 ph3] o3]. reflexivity.
Qed.

(** The loop works on its local [phase]; the [phase] field of the object is
    neither read nor written by it. *)
Lemma simulate_set_phase (type : Z) (x : t_physicslfo) (t param damping p : R) :
  simulate type (set_phase x p) t param damping =
    (set_phase (fst (simulate type x t param damping)) p,
     snd (simulate type x t param damping)).
Proof.
  destruct type as [|q|q]; [| |reflexivity];
    [|destruct q as [[[]|[]|]|[[]|[]|]|]]; cbn [simulate]; try reflexivity;
    unfold simulate_bounce, simulate_bounce_spin, simulate_multibounce;
    cbn [energy set_phase bounce_count]; repeat case_if; reflexivity.
Qed.

Lemma phase_update_set_phase (x : t_physicslfo) (ph f d p : R) :
  phase_update (set_phase x p) ph f d =
    (set_phase (fst (fst (phase_update x ph f d))) p,
     snd (fst (phase_update x ph f d)), snd (phase_update x ph f d)).
Proof.
  unfold phase_update. cbn [looping_mode envelope_active set_phase].
  repeat case_if; reflexivity.
Qed.

Lemma perform_sample_set_phase (x : t_physicslfo) (ph d p : R)
  (s : sample_in) :
  perform_sample (set_phase x p) ph d s =
    (set_phase (fst (fst (perform_sample x ph d s))) p,
     snd (fst (perform_sample x ph d s)), snd (perform_sample x ph d s)).
Proof.
  unfold perform_sample.
  cbn [freq_has_signal type_has_signal physics_has_signal damping_has_signal
       freq_float type_float physics_float damping_float set_phase].
  rewrite phase_update_set_phase.
  destruct (phase_update x ph _ d) as [[x1 ph1] w]. cbn [fst snd].
  rewrite simulate_set_phase.
  match goal with
  | |- context [simulate ?ty x1 ph1 ?pp ?dm] =>
      destruct (simulate ty x1 ph1 pp dm) as [x2 v]
  end.
  reflexivity.
Qed.

Lemma perform_loop_set_phase (d p : R) (ins : list sample_in) :
  forall (x : t_physicslfo) (ph : R),
    perform_loop (set_phase x p) ph d ins =
      (set_phase (fst (fst (perform_loop x ph d ins))) p,
       snd (fst (perform_loop x ph d ins)), snd (perform_loop x ph d ins)).
Proof.
  induction ins as [|s ins IH]; intros x ph; cbn [perform_loop].
  - reflexivity.
  - rewrite perform_sample_set_phase.
    destruct (perform_sample x ph d s) as [[x1 ph1] o]. cbn [fst snd].
    rewrite IH.
    destruct (perform_loop x1 ph1 d ins) as [[x2 ph2] os]. reflexivity.
Qed.

Lemma set_phase_twice (x : t_physicslfo) (p q : R) :
  set_phase (set_phase x p) q = set_phase x q.
Proof. reflexivity. Qed.

Lemma set_phase_same (x : t_physicslfo) : set_phase x (phase x) = x.
Proof. destruct x; reflexivity. Qed.

(** Two vectors in a row are one long vector. *)
Lemma physicslfo_perform64_app (x : t_physicslfo) (a b : list sample_in) :
  physicslfo_perform64 x (a ++ b) =
    let '(x1, o1) := physicslfo_perform64 x a in
    let '(x2, o2) := physicslfo_perform64 x1 b in
    (x2, o1 ++ o2).
Proof.
  unfold physicslfo_perform64. rewrite perform_loop_app.
  destruct (perform_loop x (phase x) (sr_inv x) a) as [[x1 ph1] o1] eqn:Ha.
  apply perform_loop_config in Ha as [(_ & Hd & _) _].
  cbn [sr_inv phase set_phase]. rewrite <- Hd.
  rewrite perform_loop_set_phase.
  destruct (perform_loop x1 ph1 (sr_inv x) b) as [[x2 ph2] o2] eqn:Hb.
  cbn [fst snd]. rewrite set_phase_twice. reflexivity.
Qed.

Lemma perform_blocks_concat (blocks : list (list sample_in)) :
  forall x : t_physicslfo,
    perform_blocks x blocks = physicslfo_perform64 x (concat blocks).
Proof.
  induction blocks as [|b blocks IH]; intros x; cbn [perform_blocks concat].
  - unfold physicslfo_perform64. cbn. now rewrite set_phase_same.
  - rewrite physicslfo_perform64_app.
    destruct (physicslfo_perform64 x b) as [x1 o1].
    rewrite IH. reflexivity.
Qed.

Lemma perform_sample_eq (x : t_physicslfo) (ph d : R) (s : sample_in) :
  perform_sample x ph d s =
    let '(x1, ph1, w) := phase_update x ph (rate_of x s) d in
    let '(x2, v) :=
      simulate (type_of x s) x1 ph1 (param_of x s) (damping_of x s) in
    (set_last_value x2 v, ph1, mk_sample_out ph1 w v).
Proof. reflexivity. Qed.

Lemma rate_of_range (x : t_physicslfo) (s : sample_in) :
  0 <= rate_of x s <= 1000.
Proof.
  pose proof (CLAMP_bounds
    (if truthy (freq_has_signal x) then freq_in s else freq_float x)
    0.0 1000.0 ltac:(lra)) as H.
  unfold rate_of. lra.
Qed.

Lemma damping_of_range (x : t_physicslfo) (s : sample_in) :
  0 <= damping_of x s <= 1.
Proof.
  pose proof (CLAMP_bounds
    (if truthy (damping_has_signal x) then damping_in s else damping_float x)
    0.0 1.0 ltac:(lra)) as H.
  unfold damping_of. lra.
Qed.


(** ** Energy under every operation *)

Lemma phase_update_energy (x x' : t_physicslfo) (ph f d ph' : R) (w : bool) :
  0 <= energy x <= 1 ->
  phase_update x ph f d = (x', ph', w) ->
  0 <= energy x' <= 1.
Proof.
  unfold phase_update. intros He H.
  repeat case_if; inversion H; subst; cbn; lra.
Qed.

Lemma perform_sample_energy (x x' : t_physicslfo) (ph d ph' : R)
  (s : sample_in) (o : sample_out) :
  0 <= energy x <= 1 ->
  perform_sample x ph d s = (x', ph', o) ->
  0 <= energy x' <= 1.
Proof.
  intros He H. rewrite perform_sample_eq in H.
  destruct (phase_update x ph (rate_of x s) d) as [[x1 ph1] w] eqn:Hu.
  apply phase_update_energy in Hu; [|exact He].
  pose proof (simulate_energy x1 ph1 (param_of x s) (damping_of x s) Hu
                (damping_of_range x s) (type_of x s)) as Hs.
  destruct (simulate (type_of x s) x1 ph1 (param_of x s) (damping_of x s))
    as [x2 v].
  inversion H; subst. cbn in *. lra.
Qed.

Lemma perform_loop_energy (d : R) (ins : list sample_in) :
  forall (x x' : t_physicslfo) (ph ph' : R) (os : list sample_out),
    0 <= energy x <= 1 ->
    perform_loop x ph d ins = (x', ph', os) ->
    0 <= energy x' <= 1.
Proof.
  induction ins as [|s ins IH]; intros x x' ph ph' os He H; cbn in H.
  - inversion H; subst. exact He.
  - destruct (perform_sample x ph d s) as [[x1 ph1] o] eqn:Hs.
    destruct (perform_loop x1 ph1 d ins) as [[x2 ph2] os2] eqn:Hl.
    inversion H; subst.
    eapply IH; [|exact Hl]. eapply perform_sample_energy; eassumption.
Qed.

Lemma apply_event_energy (x : t_physicslfo) (e : event) :
  0 <= energy x <= 1 -> 0 <= energy (apply_event x e) <= 1.
Proof.
  intros He. destruct e as [[[[c0 c1] c2] c3] samplerate|ins|inlet f|inlet n
                           |inlet|n|f]; cbn [apply_event].
  - cbn. exact He.
  - unfold physicslfo_perform64.
    destruct (perform_loop x (phase x) (sr_inv x) ins) as [[x' ph'] os] eqn:Hl.
    cbn. eapply perform_loop_energy; eassumption.
  - unfold physicslfo_float.
    destruct inlet as [|[[]|[]|]|]; cbn; exact He.
  - unfold physicslfo_int.
    destruct inlet as [|[[]|[]|]|]; cbn; exact He.
  - unfold physicslfo_bang. repeat case_if; cbn; lra.
  - unfold physicslfo_looping. repeat case_if; cbn; lra.
  - unfold physicslfo_phase. repeat case_if; cbn; lra.
Qed.

Lemma physicslfo_new_energy (sys_sr : R) (argv : list t_atom) :
  energy (fst (physicslfo_new sys_sr argv)) = 1.
Proof.
  unfold physicslfo_new.
  destruct (nth_error argv 0) as [a0|]; [destruct (is_long a0)|];
    (destruct (nth_error argv 1) as [a1|]; [destruct (is_number a1)|]);
    (destruct (nth_error argv 2) as [a2|]; [destruct (is_number a2)|]);
    cbn; lra.
Qed.

(** C5: energy stays in [0,1] under every operation.  From an object whose
    energy is in [0,1]: a call of any simulation function (damping in [0,1],
    as the sample loop clamps it) leaves energy at or below its previous
    value and not below 0, so a ground contact never raises it; the reset
    operation sets energy to exactly 1; and after any message or any signal
    vector energy is again in [0,1].  A new object starts with energy 1. *)
Theorem energy_stays_in_unit_interval (x : t_physicslfo) :
  0 <= energy x <= 1 ->
  (forall (type : Z) (t param damping : R),
      0 <= damping <= 1 ->
      0 <= energy (fst (simulate type x t param damping)) <= energy x)
  /\ energy (reset_physics_state x) = 1
  /\ (forall e : event, 0 <= energy (apply_event x e) <= 1)
  /\ (forall es : list event, 0 <= energy (apply_events x es) <= 1)
  /\ (forall (sys_sr : R) (argv : list t_atom),
         energy (fst (physicslfo_new sys_sr argv)) = 1).
Proof.
  intros He. split; [|split; [|split; [|split]]].
  - intros type t param damping Hd. now apply simulate_energy.
  - apply reset_physics_state_energy.
  - intros e. now apply apply_event_energy.
  - intros es. unfold apply_events. revert x He.
    induction es as [|e es IH]; intros x He; cbn.
    + exact He.
    + apply IH. now apply apply_event_energy.
  - apply physicslfo_new_energy.
Qed.

Lemma fresh_energy : energy fresh = 1.
Proof. cbn. lra. Qed.

Lemma energy_stays_in_unit_interval_witness :
  0 <= energy fresh <= 1
  /\ (forall e : event, 0 <= energy (apply_event fresh e) <= 1).
Proof.
  assert (He : 0 <= energy fresh <= 1) by (rewrite fresh_energy; lra).
  split; [exact He|].
  exact (proj1 (proj2 (proj2 (energy_stays_in_unit_interval fresh He)))).
Defined.

(** ** Multi-bounce *)

Lemma simulate_multibounce_eq (x : t_physicslfo) (t param damping : R) :
  simulate_multibounce x t param damping =
    if Rlt_dec (bounce_amplitude t param damping) 0.02 then (x, 0.0)
    else (x, 4.0 * fmod (t * (2.0 + param * 6.0)) 1.0
                 * (1.0 - fmod (t * (2.0 + param * 6.0)) 1.0)
                 * bounce_amplitude t param damping).
Proof. reflexivity. Qed.

(** The computed amplitude never grows with the phase. *)
Lemma bounce_amplitude_antitone (t t' param damping : R) :
  0 <= param <= 1 -> 0 <= damping <= 1 -> t <= t' ->
  bounce_amplitude t' param damping <= bounce_amplitude t param damping.
Proof.
  intros Hp Hd Ht. unfold bounce_amplitude.
  rewrite !pow_pos_base by lra.
  apply Rpower_antitone; [lra|].
  apply IZR_le, long_of_double_mono. nra.
Qed.

(** Where the amplitude is below the threshold, truncation and floor of the
    bounce index agree, so the amplitude is [retain ^ floor (t * bounces)]. *)
Lemma bounce_amplitude_floor (t param damping : R) :
  0 <= param <= 1 -> 0 <= damping <= 1 ->
  (bounce_amplitude t param damping < 0.02
   <-> Rpower (0.5 + damping * 0.4)
         (IZR (Int_part (t * (2.0 + param * 6.0)))) < 0.02).
Proof.
  intros Hp Hd. unfold bounce_amplitude. rewrite pow_pos_base by lra.
  destruct (Rle_dec 0 (t * (2.0 + param * 6.0))) as [Hn|Hn].
  - rewrite long_of_double_nonneg by exact Hn. reflexivity.
  - split; intros H; exfalso.
    + pose proof (long_of_double_sign (t * (2.0 + param * 6.0)) ltac:(lra))
        as Hs.
      apply IZR_le in Hs.
      pose proof (Rpower_nonpos_exponent (0.5 + damping * 0.4) _
                    ltac:(lra) Hs). lra.
    + pose proof (Int_part_bounds (t * (2.0 + param * 6.0))) as Hb.
      pose proof (Rpower_nonpos_exponent (0.5 + damping * 0.4)
                    (IZR (Int_part (t * (2.0 + param * 6.0))))
                    ltac:(lra) ltac:(lra)). lra.
Qed.

(** C4: for the multi-bounce function with shape and damping fixed in [0,1]
    and phases [t <= t'], if the amplitude computed at [t] is below 0.02
    then the function returns exactly 0 at [t']. *)
Theorem multibounce_stays_at_rest (x : t_physicslfo)
  (t t' param damping : R) :
  0 <= param <= 1 -> 0 <= damping <= 1 -> t <= t' ->
  bounce_amplitude t param damping < 0.02 ->
  snd (simulate_multibounce x t' param damping) = 0.
Proof.
  intros Hp Hd Ht Hamp.
  pose proof (bounce_amplitude_antitone t t' param damping Hp Hd Ht) as Hle.
  rewrite simulate_multibounce_eq.
  destruct (Rlt_dec (bounce_amplitude t' param damping) 0.02); [|lra].
  cbn. lra.
Qed.

Lemma bounce_amplitude_at (t param damping : R) (n : nat) :
  0 < 0.5 + damping * 0.4 ->
  IZR (Z.of_nat n) <= t * (2.0 + param * 6.0) < IZR (Z.of_nat n) + 1 ->
  bounce_amplitude t param damping = (0.5 + damping * 0.4) ^ n.
Proof.
  intros He Hk. unfold bounce_amplitude.
  assert (Hn : 0 <= IZR (Z.of_nat n)) by (apply IZR_le; lia).
  rewrite long_of_double_nonneg by lra.
  rewrite <- (Int_part_spec (t * (2.0 + param * 6.0)) (Z.of_nat n)) by lra.
  now apply pow_nat.
Qed.

Lemma multibounce_stays_at_rest_witness :
  bounce_amplitude 1 1 0 < 0.02
  /\ snd (simulate_multibounce fresh 2 1 0) = 0.
Proof.
  assert (Hamp : bounce_amplitude 1 1 0 < 0.02).
  { rewrite (bounce_amplitude_at 1 1 0 8) by (cbn; lra). lra. }
  split; [exact Hamp|].
  apply (multibounce_stays_at_rest fresh 1 2 1 0); try lra.
Defined.

(** ** Envelope mode *)

Lemma phase_update_envelope (x : t_physicslfo) (ph f d : R) :
  looping_mode x = 0%Z ->
  snd (fst (phase_update x ph f d)) = ph + f * d
  /\ snd (phase_update x ph f d) = false
  /\ (fst (fst (phase_update x ph f d)) = x
      \/ fst (fst (phase_update x ph f d)) = set_envelope_active x 0).
Proof.
  intros Hmode. unfold phase_update. rewrite Hmode. cbn [truthy Z.eqb negb].
  repeat case_if; cbn; auto.
Qed.

Lemma perform_sample_envelope (x x' : t_physicslfo) (ph d ph' : R)
  (s : sample_in) (o : sample_out) :
  looping_mode x = 0%Z ->
  perform_sample x ph d s = (x', ph', o) ->
  ph' = ph + rate_of x s * d
  /\ sim_phase o = ph'
  /\ sim_wrapped o = false
  /\ looping_mode x' = 0%Z.
Proof.
  intros Hmode H.
  pose proof (perform_sample_config _ _ _ _ _ _ _ H) as [Hc Hph].
  rewrite perform_sample_eq in H.
  pose proof (phase_update_envelope x ph (rate_of x s) d Hmode)
    as (Hp & Hw & _).
  destruct (phase_update x ph (rate_of x s) d) as [[x1 ph1] w].
  destruct (simulate (type_of x s) x1 ph1 (param_of x s) (damping_of x s))
    as [x2 v].
  destruct Hc as (_ & _ & _ & _ & _ & _ & _ & _ & _ & _ & Hl).
  inversion H; subst. cbn [fst snd] in Hp, Hw.
  repeat split; try assumption; try reflexivity.
  rewrite <- Hl. exact Hmode.
Qed.

Lemma Forall_Rle_trans (a b : R) (l : list R) :
  a <= b -> Forall (Rle b) l -> Forall (Rle a) l.
Proof.
  intros Hab Hl. eapply Forall_impl; [|exact Hl].
  intros c Hc. cbn in *. lra.
Qed.

Lemma last_cons_default (l : list R) (a d : R) :
  last l a = last (a :: l) d.
Proof.
  revert a d. induction l as [|b l IH]; intros a d; [reflexivity|].
  change (last (a :: b :: l) d) with (last (b :: l) d).
  rewrite <- (IH b a), <- (IH b d). reflexivity.
Qed.

Lemma perform_loop_envelope (d : R) (ins : list sample_in) :
  0 <= d ->
  forall (x x' : t_physicslfo) (ph ph' : R) (os : list sample_out),
    looping_mode x = 0%Z ->
    perform_loop x ph d ins = (x', ph', os) ->
    StronglySorted Rle (ph :: map sim_phase os)
    /\ ph' = last (map sim_phase os) ph
    /\ Forall (fun o => sim_wrapped o = false) os.
Proof.
  intros Hd. induction ins as [|s ins IH]; intros x x' ph ph' os Hm H;
    cbn in H.
  - inversion H; subst. cbn. repeat split; repeat constructor.
  - destruct (perform_sample x ph d s) as [[x1 ph1] o] eqn:Hs.
    destruct (perform_loop x1 ph1 d ins) as [[x2 ph2] os2] eqn:Hl.
    inversion H; subst.
    apply perform_sample_envelope in Hs as (Hp & Ho & Hw & Hm1);
      [|exact Hm].
    apply IH in Hl as (Hsorted & Hlast & Hwraps); [|exact Hm1].
    pose proof (rate_of_range x s) as Hr.
    assert (Hle : ph <= ph1) by nra.
    cbn [map]. rewrite Ho. repeat split.
    + constructor; [exact Hsorted|].
      constructor; [exact Hle|].
      apply StronglySorted_inv in Hsorted as [_ Hall].
      eapply Forall_Rle_trans; eassumption.
    + rewrite Hlast. apply last_cons_default.
    + constructor; assumption.
Qed.

(** With a held rate the envelope phase is the closed form
    [phase + n * rate * sr_inv]. *)
Lemma perform_loop_envelope_held (d : R) (ins : list sample_in) :
  forall (x x' : t_physicslfo) (ph ph' : R) (os : list sample_out),
    looping_mode x = 0%Z ->
    truthy (freq_has_signal x) = false ->
    perform_loop x ph d ins = (x', ph', os) ->
    ph' = ph + INR (length ins) * (CLAMP (freq_float x) 0.0 1000.0 * d).
Proof.
  induction ins as [|s ins IH]; intros x x' ph ph' os Hm Hf H; cbn in H.
  - inversion H; subst. cbn. lra.
  - destruct (perform_sample x ph d s) as [[x1 ph1] o] eqn:Hs.
    destruct (perform_loop x1 ph1 d ins) as [[x2 ph2] os2] eqn:Hl.
    inversion H; subst.
    pose proof (perform_sample_config _ _ _ _ _ _ _ Hs) as [Hc _].
    apply perform_sample_envelope in Hs as (Hp & _ & _ & Hm1); [|exact Hm].
    destruct Hc as (_ & _ & Hff & _ & _ & _ & Hfs & _).
    apply IH in Hl; [|exact Hm1|rewrite <- Hfs; exact Hf].
    rewrite Hl, Hp, <- Hff. unfold rate_of. rewrite Hf.
    change (length (s :: ins)) with (S (length ins)). rewrite S_INR. lra.
Qed.

(** C7: in envelope mode, with the reciprocal sample rate not negative, the
    phases of a run (over any number of signal vectors, any rate inputs, and
    whatever envelope_active is or becomes) never decrease from one frame to
    the next, starting from the phase the run began with; the object ends
    the run with the last of them, and the wrap branch is never taken. *)
Theorem envelope_phase_nondecreasing (x : t_physicslfo)
  (blocks : list (list sample_in)) :
  looping_mode x = 0%Z ->
  0 <= sr_inv x ->
  StronglySorted Rle
    (phase x :: map sim_phase (snd (perform_blocks x blocks)))
  /\ phase (fst (perform_blocks x blocks)) =
       last (map sim_phase (snd (perform_blocks x blocks))) (phase x)
  /\ count_wraps (snd (perform_blocks x blocks)) = 0%nat.
Proof.
  intros Hm Hd. rewrite perform_blocks_concat. unfold physicslfo_perform64.
  destruct (perform_loop x (phase x) (sr_inv x) (concat blocks))
    as [[x' ph'] os] eqn:Hl.
  apply (perform_loop_envelope _ _ Hd) in Hl as (Hs & Hlast & Hw);
    [|exact Hm].
  cbn [fst snd phase set_phase]. repeat split; try assumption.
  unfold count_wraps. clear -Hw.
  induction Hw as [|o os Ho _ IH]; [reflexivity|].
  cbn. rewrite Ho. exact IH.
Qed.

Lemma fresh_envelope_sr_inv : sr_inv fresh_envelope = 1 / 48000.
Proof. cbn. lra. Qed.

Lemma envelope_phase_nondecreasing_witness :
  StronglySorted Rle
    (phase fresh_envelope
       :: map sim_phase
            (snd (perform_blocks fresh_envelope
                    [[mk_sample_in 0 0 0 0; mk_sample_in 0 0 0 0]])))
  /\ phase (fst (perform_blocks fresh_envelope
                   [[mk_sample_in 0 0 0 0; mk_sample_in 0 0 0 0]])) =
       last (map sim_phase
               (snd (perform_blocks fresh_envelope
                       [[mk_sample_in 0 0 0 0; mk_sample_in 0 0 0 0]])))
         (phase fresh_envelope)
  /\ count_wraps
       (snd (perform_blocks fresh_envelope
               [[mk_sample_in 0 0 0 0; mk_sample_in 0 0 0 0]])) = 0%nat.
Proof.
  apply (envelope_phase_nondecreasing fresh_envelope
           [[mk_sample_in 0 0 0 0; mk_sample_in 0 0 0 0]]).
  - reflexivity.
  - rewrite fresh_envelope_sr_inv. lra.
Defined.

(** ** Looping mode *)

Lemma phase_update_looping (x : t_physicslfo) (ph f d : R) :
  looping_mode x <> 0%Z ->
  phase_update x ph f d =
    if Rge_dec (ph + f * d) 1.0
    then (reset_physics_state x, wrap_negative (ph + f * d - 1.0), true)
    else (x, wrap_negative (ph + f * d), false).
Proof.
  intros Hm. apply truthy_true in Hm. unfold phase_update. rewrite Hm.
  reflexivity.
Qed.

Lemma perform_sample_looping_range (x x' : t_physicslfo) (ph d ph' : R)
  (s : sample_in) (o : sample_out) :
  looping_mode x <> 0%Z ->
  0 <= ph <= 1 -> 0 <= d < 1 / 1000 ->
  perform_sample x ph d s = (x', ph', o) ->
  0 <= ph' < 1 /\ sim_phase o = ph' /\ looping_mode x' <> 0%Z.
Proof.
  intros Hm Hph Hd H.
  pose proof (perform_sample_config _ _ _ _ _ _ _ H) as [Hc Ho].
  destruct Hc as (_ & _ & _ & _ & _ & _ & _ & _ & _ & _ & Hl).
  rewrite perform_sample_eq, (phase_update_looping _ _ _ _ Hm) in H.
  pose proof (rate_of_range x s) as Hr.
  assert (Hinc : 0 <= rate_of x s * d < 1) by nra.
  destruct (Rge_dec (ph + rate_of x s * d) 1.0) as [Hge|Hlt];
    match type of H with
    | context [simulate ?ty ?y ?t ?p ?dm] =>
        destruct (simulate ty y t p dm) as [x2 v]
    end;
    inversion H; subst; rewrite wrap_negative_id by lra;
    (split; [lra|split; [reflexivity|rewrite <- Hl; exact Hm]]).
Qed.

Lemma perform_loop_looping_range (d : R) (ins : list sample_in) :
  0 <= d < 1 / 1000 ->
  forall (x x' : t_physicslfo) (ph ph' : R) (os : list sample_out),
    looping_mode x <> 0%Z -> 0 <= ph <= 1 ->
    perform_loop x ph d ins = (x', ph', os) ->
    phases_in_unit os /\ 0 <= ph' <= 1.
Proof.
  intros Hd. induction ins as [|s ins IH]; intros x x' ph ph' os Hm Hph H;
    cbn in H.
  - inversion H; subst. split; [constructor|exact Hph].
  - destruct (perform_sample x ph d s) as [[x1 ph1] o] eqn:Hs.
    destruct (perform_loop x1 ph1 d ins) as [[x2 ph2] os2] eqn:Hl.
    inversion H; subst.
    apply perform_sample_looping_range in Hs as (Hp1 & Ho & Hm1);
      try assumption.
    apply IH in Hl as [Hall Hp2]; [|exact Hm1|lra].
    split; [|exact Hp2]. constructor; [rewrite Ho; exact Hp1|exact Hall].
Qed.


Lemma fresh_sr_inv : sr_inv fresh = 1 / 48000.
Proof. cbn. lra. Qed.

Lemma fresh_phase : phase fresh = 0.
Proof. cbn. lra. Qed.


Lemma physicslfo_perform64_config (x : t_physicslfo) (ins : list sample_in) :
  same_config x (fst (physicslfo_perform64 x ins)).
Proof.
  unfold physicslfo_perform64.
  destruct (perform_loop x (phase x) (sr_inv x) ins) as [[x' ph'] os] eqn:Hl.
  apply perform_loop_config in Hl as [Hc _]. exact Hc.
Qed.

Lemma physicslfo_perform64_envelope_held (x : t_physicslfo)
  (ins : list sample_in) :
  looping_mode x = 0%Z ->
  truthy (freq_has_signal x) = false ->
  phase (fst (physicslfo_perform64 x ins)) =
    phase x + INR (length ins) * (CLAMP (freq_float x) 0.0 1000.0 * sr_inv x).
Proof.
  intros Hm Hf. unfold physicslfo_perform64.
  destruct (perform_loop x (phase x) (sr_inv x) ins) as [[x' ph'] os] eqn:Hl.
  apply perform_loop_envelope_held in Hl; assumption.
Qed.

Lemma physicslfo_perform64_one (x : t_physicslfo) (s : sample_in) :
  snd (physicslfo_perform64 x [s]) =
    [snd (perform_sample x (phase x) (sr_inv x) s)].
Proof.
  unfold physicslfo_perform64. cbn [perform_loop].
  destruct (perform_sample x (phase x) (sr_inv x) s) as [[x1 ph1] o].
  reflexivity.
Qed.

Lemma perform_sample_looping_phase (x : t_physicslfo) (ph d : R)
  (s : sample_in) :
  looping_mode x <> 0%Z ->
  sim_phase (snd (perform_sample x ph d s)) =
    if Rge_dec (ph + rate_of x s * d) 1.0
    then wrap_negative (ph + rate_of x s * d - 1.0)
    else wrap_negative (ph + rate_of x s * d).
Proof.
  intros Hm. rewrite perform_sample_eq, (phase_update_looping _ _ _ _ Hm).
  destruct (Rge_dec (ph + rate_of x s * d) 1.0);
    match goal with
    | |- context [simulate ?ty ?y ?t ?p ?dm] =>
        destruct (simulate ty y t p dm) as [x2 v]
    end; reflexivity.
Qed.

Lemma CLAMP_high (a lo hi : R) : lo < hi -> hi <= a -> CLAMP a lo hi = hi.
Proof.
  intros Hlh Ha. unfold CLAMP.
  destruct (Rgt_dec a lo); [destruct (Rlt_dec a hi)|]; lra.
Qed.



Lemma slow_host_state :
  looping_mode slow_host = 1%Z
  /\ sr_inv slow_host = 1 / 500
  /\ truthy (freq_has_signal slow_host) = false
  /\ freq_float slow_host = 1000
  /\ phase slow_host = 0.
Proof.
  unfold slow_host, apply_events. cbn [fold_left apply_event].
  set (x := fst (physicslfo_float _ _ _)).
  change (freq_float x) with (CLAMP 1000 0.0 1000.0).
  change (sr_inv x) with (1.0 / 500). change (phase x) with 0.0.
  rewrite CLAMP_high by lra.
  repeat split; try reflexivity; lra.
Qed.

(** The same failure on a new object, without any mode switch, when the
    host runs below 1000 Hz: at 500 Hz and a rate of 1000 Hz the first frame
    reaches phase 2 and one subtraction leaves 1. *)
Lemma looping_phase_escapes_at_low_sample_rate :
  map sim_phase (snd (physicslfo_perform64 slow_host [silent])) = [1].
Proof.
  destruct slow_host_state as (Hm & Hd & Hfs & Hff & Hph).
  rewrite physicslfo_perform64_one. cbn [map].
  rewrite perform_sample_looping_phase by (rewrite Hm; discriminate).
  unfold rate_of. rewrite Hfs, Hff, Hd, Hph.
  rewrite CLAMP_high by lra.
  destruct (Rge_dec (0 + 1000.0 * (1 / 500)) 1.0); [|lra].
  rewrite wrap_negative_id by lra. f_equal. lra.
Qed.

(** ** One second of looping at 1 Hz *)

Lemma perform_sample_looping_below (x : t_physicslfo) (ph d : R)
  (s : sample_in) :
  looping_mode x <> 0%Z ->
  0 <= ph + rate_of x s * d < 1 ->
  snd (fst (perform_sample x ph d s)) = ph + rate_of x s * d
  /\ sim_wrapped (snd (perform_sample x ph d s)) = false.
Proof.
  intros Hm Hr. rewrite perform_sample_eq, (phase_update_looping _ _ _ _ Hm).
  destruct (Rge_dec (ph + rate_of x s * d) 1.0); [lra|].
  rewrite wrap_negative_id by lra.
  match goal with
  | |- context [simulate ?ty ?y ?t ?p ?dm] =>
      destruct (simulate ty y t p dm) as [x2 v]
  end.
  split; reflexivity.
Qed.

Lemma perform_sample_looping_wrap (x : t_physicslfo) (ph d : R)
  (s : sample_in) :
  looping_mode x <> 0%Z ->
  ph + rate_of x s * d = 1 ->
  perform_sample x ph d s =
    let '(x2, v) :=
      simulate (type_of x s) (reset_physics_state x) 0
        (param_of x s) (damping_of x s) in
    (set_last_value x2 v, 0, mk_sample_out 0 true v).
Proof.
  intros Hm Hr. rewrite perform_sample_eq, (phase_update_looping _ _ _ _ Hm).
  destruct (Rge_dec (ph + rate_of x s * d) 1.0); [|lra].
  replace (ph + rate_of x s * d - 1.0) with 0 by lra.
  rewrite wrap_negative_id by lra. reflexivity.
Qed.

Lemma perform_loop_looping_held_below (d : R) (ins : list sample_in) :
  forall (x x' : t_physicslfo) (ph ph' : R) (os : list sample_out),
    looping_mode x <> 0%Z ->
    truthy (freq_has_signal x) = false ->
    0 <= CLAMP (freq_float x) 0.0 1000.0 * d ->
    0 <= ph ->
    ph + INR (length ins) * (CLAMP (freq_float x) 0.0 1000.0 * d) < 1 ->
    perform_loop x ph d ins = (x', ph', os) ->
    ph' = ph + INR (length ins) * (CLAMP (freq_float x) 0.0 1000.0 * d)
    /\ count_wraps os = 0%nat.
Proof.
  induction ins as [|s ins IH]; intros x x' ph ph' os Hm Hf Hinc Hph Hlt H;
    cbn [perform_loop] in H.
  - inversion H; subst. cbn. split; [lra|reflexivity].
  - change (length (s :: ins)) with (S (length ins)) in *.
    rewrite S_INR in *.
    pose proof (pos_INR (length ins)) as Hn.
    assert (Hrate : rate_of x s = CLAMP (freq_float x) 0.0 1000.0).
    { unfold rate_of. now rewrite Hf. }
    assert (Hstep : 0 <= ph + rate_of x s * d < 1) by (rewrite Hrate; nra).
    pose proof (perform_sample_looping_below x ph d s Hm Hstep) as [Hp Hw].
    destruct (perform_sample x ph d s) as [[x1 ph1] o] eqn:Hs.
    destruct (perform_loop x1 ph1 d ins) as [[x2 ph2] os2] eqn:Hl.
    inversion H; subst. cbn [fst snd] in Hp, Hw.
    apply perform_sample_config in Hs
      as [(_ & _ & Hff & _ & _ & _ & Hfs & _ & _ & _ & Hlm) _].
    rewrite Hrate in Hp.
    apply IH in Hl as [Hph2 Hc].
    + split; [rewrite Hph2, <- Hff, Hp; lra|].
      unfold count_wraps in *. cbn [filter]. rewrite Hw. exact Hc.
    + now rewrite <- Hlm.
    + now rewrite <- Hfs.
    + now rewrite <- Hff.
    + rewrite Hp. lra.
    + rewrite <- Hff, Hp. lra.
Qed.

Lemma count_wraps_app (a b : list sample_out) :
  count_wraps (a ++ b) = (count_wraps a + count_wraps b)%nat.
Proof. unfold count_wraps. now rewrite filter_app, length_app. Qed.

Lemma CLAMP_low (a lo hi : R) : a <= lo -> CLAMP a lo hi = lo.
Proof.
  intros Ha. unfold CLAMP. destruct (Rgt_dec a lo); [lra|reflexivity].
Qed.

(** The first frame of a cycle of the bounce: at phase 0 the ball is at
    full height and there is no ground contact. *)
Lemma simulate_bounce_at_zero (x : t_physicslfo) (param damping : R) :
  0 < energy x -> 0 <= param ->
  simulate_bounce x 0 param damping = (x, CLAMP (energy x) 0.0 1.0).
Proof.
  intros He Hp. unfold simulate_bounce.
  rewrite pow_zero_base by lra.
  replace (1.0 - damping * 0 * 1.5) with 1 by lra.
  assert (Hmax : fmax 0.1 1 = 1).
  { unfold fmax. destruct (Rle_dec 0.1 1); lra. }
  rewrite Hmax.
  replace (energy x * 1 * (1.0 - 0)) with (energy x) by lra.
  destruct (Rle_dec (energy x) 0.0); [lra|reflexivity].
Qed.

(** C9: an object in looping mode at phase 0, with rate 1 Hz, type 0,
    shape 0.5 and damping 0.1 held (no signal connected) and a sample rate
    of 48000 Hz, is run for exactly 48000 frames (in any division into
    signal vectors).  The wrap-and-reset branch is taken on exactly one
    frame, the last one; the reset ran there, so the run ends with
    bounce_count 0, energy 1, spin_phase 0 and phase 0. *)
Theorem one_second_of_looping_wraps_once (x : t_physicslfo)
  (blocks : list (list sample_in)) :
  looping_mode x <> 0%Z ->
  phase x = 0 ->
  sr_inv x = 1 / 48000 ->
  truthy (freq_has_signal x) = false ->
  truthy (type_has_signal x) = false ->
  truthy (physics_has_signal x) = false ->
  truthy (damping_has_signal x) = false ->
  freq_float x = 1 ->
  type_float x = 0 ->
  physics_float x = 0.5 ->
  damping_float x = 0.1 ->
  length (concat blocks) = Z.to_nat 48000 ->
  count_wraps (snd (perform_blocks x blocks)) = 1%nat
  /\ (exists (os : list sample_out) (o : sample_out),
         snd (perform_blocks x blocks) = os ++ [o]
         /\ count_wraps os = 0%nat
         /\ sim_wrapped o = true
         /\ sim_phase o = 0)
  /\ bounce_count (fst (perform_blocks x blocks)) = 0
  /\ energy (fst (perform_blocks x blocks)) = 1
  /\ spin_phase (fst (perform_blocks x blocks)) = 0
  /\ phase (fst (perform_blocks x blocks)) = 0.
Proof.
  intros Hm Hph Hd Hfs Hts Hps Hds Hff Htf Hpf Hdf Hlen.
  rewrite perform_blocks_concat.
  destruct (exists_last (l := concat blocks)) as (l & s & Hl).
  { intros Hnil. rewrite Hnil in Hlen. cbn [length] in Hlen. lia. }
  rewrite Hl in *. clear Hl.
  assert (Hlen' : length l = Z.to_nat 47999).
  { rewrite length_app in Hlen. cbn [length] in Hlen. lia. }
  assert (Hn : INR (length l) = 47999).
  { rewrite Hlen', INR_IZR_INZ, Z2Nat.id by lia. reflexivity. }
  assert (Hrate : CLAMP (freq_float x) 0.0 1000.0 = 1).
  { rewrite Hff. apply CLAMP_inside. lra. }
  unfold physicslfo_perform64. rewrite perform_loop_app.
  destruct (perform_loop x (phase x) (sr_inv x) l) as [[x1 ph1] o1] eqn:Ha.
  pose proof (perform_loop_config _ _ _ _ _ _ _ Ha)
    as [(_ & _ & Hff1 & Htf1 & Hpf1 & Hdf1 & Hfs1 & Hts1 & Hps1 & Hds1
         & Hm1) _].
  apply perform_loop_looping_held_below in Ha as [Hph1 Hc1];
    try assumption;
    [|rewrite Hrate, Hd; lra|lra|rewrite Hrate, Hd, Hph, Hn; lra].
  rewrite Hrate, Hd, Hph, Hn in Hph1.
  cbn [perform_loop].
  assert (Hr1 : rate_of x1 s = 1).
  { unfold rate_of. rewrite <- Hfs1, Hfs, <- Hff1. exact Hrate. }
  assert (Ht1 : type_of x1 s = 0%Z).
  { unfold type_of. rewrite <- Hts1, Hts, <- Htf1, Htf.
    rewrite CLAMP_low by lra.
    replace 0.0 with (IZR 0) by lra. apply long_of_double_IZR. }
  assert (Hp1 : param_of x1 s = 0.5).
  { unfold param_of. rewrite <- Hps1, Hps, <- Hpf1, Hpf.
    apply CLAMP_inside. lra. }
  assert (Hd1 : damping_of x1 s = 0.1).
  { unfold damping_of. rewrite <- Hds1, Hds, <- Hdf1, Hdf.
    apply CLAMP_inside. lra. }
  rewrite perform_sample_looping_wrap;
    [|rewrite <- Hm1; exact Hm|rewrite Hr1, Hd, Hph1; lra].
  rewrite Ht1, Hp1, Hd1. cbn [simulate].
  rewrite simulate_bounce_at_zero by (cbn; lra).
  cbn [fst snd]. rewrite count_wraps_app, Hc1.
  split; [reflexivity|]. split.
  - eexists o1, _. split; [reflexivity|]. split; [exact Hc1|].
    split; reflexivity.
  - cbn. repeat split; lra.
Qed.

Lemma fresh_held :
  truthy (freq_has_signal fresh) = false
  /\ truthy (type_has_signal fresh) = false
  /\ truthy (physics_has_signal fresh) = false
  /\ truthy (damping_has_signal fresh) = false
  /\ freq_float fresh = 1 /\ type_float fresh = 0
  /\ physics_float fresh = 0.5 /\ damping_float fresh = 0.1.
Proof. cbn. repeat split; lra. Qed.

Lemma one_second_of_looping_witness :
  count_wraps
    (snd (perform_blocks fresh [repeat silent (Z.to_nat 48000)])) = 1%nat
  /\ bounce_count
       (fst (perform_blocks fresh [repeat silent (Z.to_nat 48000)])) = 0.
Proof.
  destruct fresh_held as (Hfs & Hts & Hps & Hds & Hff & Htf & Hpf & Hdf).
  assert (Hm : looping_mode fresh <> 0%Z) by (intros Hz; discriminate Hz).
  assert (Hlen : length (concat [repeat silent (Z.to_nat 48000)])
                 = Z.to_nat 48000).
  { cbn [concat]. rewrite app_nil_r. apply repeat_length. }
  destruct (one_second_of_looping_wraps_once fresh
              [repeat silent (Z.to_nat 48000)] Hm fresh_phase fresh_sr_inv
              Hfs Hts Hps Hds Hff Htf Hpf Hdf Hlen) as (Hc & _ & Hb & _).
  split; assumption.
Defined.

(** In binary64 the phase after 48000 additions of 1/48000 is
    1.000000000000893, not 1: the wrap still falls on frame 48000, and only
    there, and leaves a phase of about 8.9e-13. *)
Lemma binary64_one_second_wraps_once :
  Binary64.acc_wraps Binary64.one_second = [48000%N]
  /\ Binary64.acc_done Binary64.one_second = true
  /\ Binary64.rounding_residue (Binary64.acc_phase Binary64.one_second)
     = true.
Proof. vm_compute. repeat split. Qed.

(** ** The multi-bounce scenario: shape 0.5, damping 1 *)

Lemma fmod_one (a : R) : 0 <= a -> fmod a 1.0 = frac_part a.
Proof.
  intros Ha. unfold fmod, frac_part.
  replace (a / 1.0) with a by lra.
  rewrite long_of_double_nonneg by exact Ha. lra.
Qed.

Lemma simulate_multibounce_value (x : t_physicslfo) (t param damping : R) :
  snd (simulate_multibounce x t param damping) =
    if Rlt_dec (bounce_amplitude t param damping) 0.02 then 0
    else 4 * fmod (t * (2.0 + param * 6.0)) 1.0
           * (1 - fmod (t * (2.0 + param * 6.0)) 1.0)
           * bounce_amplitude t param damping.
Proof.
  rewrite simulate_multibounce_eq.
  destruct (Rlt_dec (bounce_amplitude t param damping) 0.02); cbn [snd]; lra.
Qed.












(** ** Range of the samples *)

(** [Rtrigo1.PI] is the number pi of the real numbers, as opposed to the
    constant [PI] of the program. *)

Lemma sin_one_lower : 0.84 <= sin 1.
Proof.
  pose proof PI2_3_2 as Hpi.
  destruct (SIN 1 ltac:(lra) ltac:(lra)) as [Hlb _].
  unfold sin_lb, sin_approx, sin_term in Hlb.
  cbn [sum_f_R0 Nat.mul Nat.add] in Hlb.
  rewrite !pow1 in Hlb.
  change (fact 1) with 1%nat in Hlb. change (fact 3) with 6%nat in Hlb.
  change (fact 5) with 120%nat in Hlb.
  change (fact 7) with (Z.to_nat 5040) in Hlb.
  rewrite (INR_IZR_INZ (Z.to_nat 5040)), Z2Nat.id in Hlb by lia.
  rewrite !INR_IZR_INZ in Hlb. cbn [Z.of_nat Pos.of_succ_nat Pos.succ] in Hlb.
  cbn [Rpow_def.pow] in Hlb. lra.
Qed.

Lemma pow_small_base (a y : R) : 0 < a <= 1 -> 1 <= y -> 0 < pow a y <= a.
Proof.
  intros Ha Hy. rewrite pow_pos_base by lra. split.
  - apply exp_pos.
  - rewrite <- (Rpower_1 a) at 2 by lra. now apply Rpower_antitone.
Qed.

Lemma sin_first_quadrant (a : R) : 1 <= a <= 1.5 -> 0.84 <= sin a.
Proof.
  intros Ha. pose proof PI2_3_2 as Hpi. pose proof sin_one_lower as H1.
  apply Rle_trans with (sin 1); [exact H1|].
  apply sin_incr_1; lra.
Qed.

Lemma sin_upper_half (a : R) : 0 <= a <= 3 -> 0 <= sin a.
Proof.
  intros Ha. pose proof PI2_3_2 as Hpi. apply sin_ge_0; lra.
Qed.

(** With energy 1, shape 1 and damping 0, at phase 0.005 the base bounce
    is above 0.995 and the spin term adds more than a quarter of it. *)
Lemma bounce_spin_above_one (x : t_physicslfo) (t param damping : R) :
  energy x = 1 -> t = 0.005 -> param = 1 -> damping = 0 ->
  fst (simulate_bounce_spin x t param damping) = x
  /\ 1.25 < snd (simulate_bounce_spin x t param damping).
Proof.
  intros He -> -> ->. unfold simulate_bounce_spin. rewrite He.
  pose proof (pow_small_base 0.005 (0.3 + 1 * 2.5) ltac:(lra) ltac:(lra))
    as Hpow.
  assert (Hmax : fmax 0.15 (1.0 - 0 * 0.005 * 1.0) = 1).
  { unfold fmax. destruct (Rle_dec 0.15 (1.0 - 0 * 0.005 * 1.0)); lra. }
  rewrite Hmax.
  pose proof (sin_upper_half (2.0 * PI * (3.0 + 1 * 12.0) * 0.005)
                ltac:(unfold PI; lra)) as Hprimary.
  pose proof (sin_first_quadrant
                (2.0 * PI * (1.5 + 1 * 6.0) * 0.005 + PI / 3)
                ltac:(unfold PI; lra)) as Hsecondary.
  pose proof (sin_upper_half (2.0 * PI * (0.5 + 1 * 1.5) * 0.005)
                ltac:(unfold PI; lra)) as Hwobble.
  set (base := 1 * 1 * (1.0 - pow 0.005 (0.3 + 1 * 2.5))) in *.
  set (p := sin (2.0 * PI * (3.0 + 1 * 12.0) * 0.005)) in *.
  set (q := sin (2.0 * PI * (1.5 + 1 * 6.0) * 0.005 + PI / 3)) in *.
  set (w := sin (2.0 * PI * (0.5 + 1 * 1.5) * 0.005)) in *.
  assert (Hbase : 0.995 <= base <= 1) by (unfold base; lra).
  assert (Hfinal :
    1.25 < base + (p * 0.7 + q * 0.3)
                  * ((0.3 + 1 * 0.4) * base * (1.0 + 1 * 0.5))
           + w * 0.15 * 1 * base) by nra.
  match goal with
  | |- context [Rle_dec ?h 0.0] => destruct (Rle_dec h 0.0) as [Hle|Hgt]
  end; [lra|].
  cbn [fst snd]. split; [reflexivity|]. unfold fmax.
  match goal with
  | |- context [Rle_dec ?a ?b] => destruct (Rle_dec a b)
  end; lra.
Qed.

Lemma spin_setup_state :
  looping_mode spin_setup = 1%Z
  /\ energy spin_setup = 1
  /\ phase spin_setup = 0
  /\ sr_inv spin_setup = 1 / 48000
  /\ rate_of spin_setup silent = 240
  /\ type_of spin_setup silent = 2%Z
  /\ param_of spin_setup silent = 1
  /\ damping_of spin_setup silent = 0.
Proof.
  unfold rate_of, type_of, param_of, damping_of. cbn.
  rewrite (CLAMP_inside 240), (CLAMP_inside 240), (CLAMP_high 1),
    (CLAMP_high 1.0), (CLAMP_low 0), (CLAMP_low 0.0), (CLAMP_inside 2)
    by lra.
  repeat split; try lra.
  replace 2 with (IZR 2) by lra. apply long_of_double_IZR.
Qed.

(** C1: the sample is not always in [0,1].  The bounce-with-spin function
    only clamps from below.  With every input in its domain (type 2, phase
    0.005, shape 1, damping 0, energy 1 on a freshly reset object) it
    returns more than 1.25; and that sample reaches the outlet: it is the
    first frame of an object in looping mode at 48 kHz with the rate at
    240 Hz. *)
Theorem bounce_spin_sample_exceeds_one :
  energy fresh = 1
  /\ 1.25 < snd (simulate 2 fresh 0.005 1 0)
  /\ ~ in_unit (snd (simulate 2 fresh 0.005 1 0))
  /\ exists o : sample_out,
       snd (physicslfo_perform64 spin_setup [silent]) = [o]
       /\ sim_phase o = 0.005
       /\ 1.25 < out_value o.
Proof.
  pose proof (bounce_spin_above_one fresh 0.005 1 0 fresh_energy
                eq_refl eq_refl eq_refl) as [_ Hval].
  split; [apply fresh_energy|]. split; [exact Hval|].
  split; [unfold in_unit; cbn [simulate]; lra|].
  destruct spin_setup_state as (Hm & He & Hph & Hd & Hr & Ht & Hp & Hdm).
  rewrite physicslfo_perform64_one, perform_sample_eq.
  rewrite phase_update_looping by (rewrite Hm; discriminate).
  rewrite Hr, Ht, Hp, Hdm, Hph, Hd.
  destruct (Rge_dec (0 + 240 * (1 / 48000)) 1.0); [lra|].
  rewrite wrap_negative_id by lra. cbn [simulate].
  pose proof (bounce_spin_above_one spin_setup (0 + 240 * (1 / 48000)) 1 0
                He ltac:(lra) eq_refl eq_refl) as [Hx Hv].
  destruct (simulate_bounce_spin spin_setup (0 + 240 * (1 / 48000)) 1 0)
    as [x2 v].
  cbn [fst snd] in *. eexists. split; [reflexivity|].
  cbn [sim_phase out_value]. split; [lra|exact Hv].
Qed.

Lemma pi_bounds : 3.13 < Rtrigo1.PI < 3.24.
Proof.
  destruct (PI_2_3_7_ineq 0) as [Hlow Hup].
  unfold PI_2_3_7_tg, tg_alt, Ratan_seq in Hlow, Hup.
  cbn [sum_f_R0 Nat.mul Nat.add Rpow_def.pow] in Hlow, Hup.
  cbn [INR] in Hlow, Hup. lra.
Qed.

(** On [1, pi - 1] the sine is at least [sin 1]. *)
Lemma sin_middle (a : R) : 1 <= a <= 2.1 -> 0.84 <= sin a.
Proof.
  intros Ha. pose proof pi_bounds as Hpi. pose proof sin_one_lower as H1.
  destruct (Rle_dec a (Rtrigo1.PI / 2)) as [Hq|Hq].
  - apply Rle_trans with (sin 1); [exact H1|]. apply sin_incr_1; lra.
  - rewrite <- (sin_PI_x a).
    apply Rle_trans with (sin 1); [exact H1|]. apply sin_incr_1; lra.
Qed.

(** On [pi + 1, 2 pi - 1] the sine is at most [- sin 1]. *)
Lemma sin_lower_middle (a : R) : 4.24 <= a <= 5.23 -> sin a <= - 0.84.
Proof.
  intros Ha. pose proof pi_bounds as Hpi.
  replace a with ((a - Rtrigo1.PI) + Rtrigo1.PI) by lra. rewrite neg_sin.
  pose proof (sin_middle (a - Rtrigo1.PI) ltac:(lra)). lra.
Qed.

(** The overshoot function has no clamp at all: with shape 1 and damping 0
    the sample at phase 0.15 is negative. *)
Lemma elastic_overshoot_sample_negative (x : t_physicslfo) :
  snd (simulate 3 x 0.15 1 0) < - 0.4.
Proof.
  cbn [simulate]. unfold simulate_elastic_overshoot. cbn [snd].
  replace (- 0 * 0.15 * 2.5) with 0 by lra. rewrite exp_0.
  destruct (Rlt_dec 1 0.01); [lra|].
  pose proof (sin_lower_middle (2.0 * PI * (1.0 + 1 * 4.0) * 0.15)
                ltac:(unfold PI; lra)) as Hsin.
  pose proof (exp_ineq1_le (- (2.0 + 0 * 3.0) * 0.15)) as Hexp.
  nra.
Qed.

(** Nor has the wobble: with shape 1 and damping 0 the sample at phase 0.17
    is negative. *)
Lemma wobble_sample_negative (x : t_physicslfo) :
  snd (simulate 5 x 0.17 1 0) < - 0.1.
Proof.
  cbn [simulate]. unfold simulate_wobble. cbn [snd].
  replace (- 0 * 0.17 * 1.2) with 0 by lra. rewrite exp_0.
  destruct (Rlt_dec 1 0.01); [lra|].
  pose proof (sin_lower_middle (2.0 * PI * (1.5 + 1 * 2.5) * 0.17)
                ltac:(unfold PI; lra)) as Hsin1.
  pose proof (sin_lower_middle
                (2.0 * PI * (1.5 + 1 * 2.5 + 1 * 0.8) * 0.17)
                ltac:(unfold PI; lra)) as Hsin2.
  pose proof (exp_ineq1_le (- (1.5 + 0 * 2.0) * 0.17)) as Hexp.
  lra.
Qed.

(** The other three functions keep the range. *)
Lemma simulate_bounce_in_unit (x : t_physicslfo) (t param damping : R) :
  in_unit (snd (simulate 0 x t param damping)).
Proof.
  cbn [simulate]. unfold simulate_bounce, in_unit.
  match goal with
  | |- context [Rle_dec ?h 0.0] => destruct (Rle_dec h 0.0)
  end; cbn [snd];
    match goal with
    | |- context [CLAMP ?a 0.0 1.0] =>
        pose proof (CLAMP_bounds a 0.0 1.0 ltac:(lra))
    end; lra.
Qed.

Lemma simulate_elastic_in_unit (x : t_physicslfo) (t tension damping : R) :
  0 <= t -> 0 <= damping ->
  in_unit (snd (simulate 1 x t tension damping)).
Proof.
  intros Ht Hd. cbn [simulate]. unfold simulate_elastic, in_unit.
  cbn [snd].
  set (e := exp (- (1.0 + damping * 4.0) * t)).
  assert (He : 0 < e <= 1).
  { split; [apply exp_pos|]. unfold e. rewrite <- exp_0.
    apply exp_mono. nra. }
  match goal with
  | |- context [sin ?a] => pose proof (SIN_bound a) as Hs; set (s := sin a) in *
  end.
  nra.
Qed.

Lemma simulate_multibounce_in_unit (x : t_physicslfo) (t param damping : R) :
  0 <= t -> 0 <= param -> 0 <= damping <= 1 ->
  in_unit (snd (simulate 4 x t param damping)).
Proof.
  intros Ht Hp Hd. cbn [simulate]. unfold in_unit.
  rewrite simulate_multibounce_value.
  destruct (Rlt_dec (bounce_amplitude t param damping) 0.02); [lra|].
  assert (Hn : 0 <= t * (2.0 + param * 6.0)) by nra.
  rewrite fmod_one by exact Hn.
  destruct (base_fp (t * (2.0 + param * 6.0))) as [Hf0 Hf1].
  set (f := frac_part (t * (2.0 + param * 6.0))) in *.
  assert (Hamp : 0 < bounce_amplitude t param damping <= 1).
  { unfold bounce_amplitude. rewrite pow_pos_base by lra. split.
    - apply exp_pos.
    - rewrite <- (Rpower_O (0.5 + damping * 0.4)) by lra.
      apply Rpower_antitone; [lra|].
      rewrite long_of_double_nonneg by exact Hn.
      apply IZR_le.
      pose proof (Int_part_mono 0 _ Hn) as Hm.
      change 0 with (IZR 0) in Hm. now rewrite Int_part_IZR in Hm. }
  set (a := bounce_amplitude t param damping) in *.
  assert (Hh : 0 <= 4 * f * (1 - f) <= 1).
  { pose proof (Rle_0_sqr (2 * f - 1)) as Hsq. unfold Rsqr in Hsq. nra. }
  nra.
Qed.

(** ** Runs interleaved with messages *)

Lemma run_state (es : list event) :
  forall x : t_physicslfo, fst (run x es) = apply_events x es.
Proof.
  induction es as [|e es IH]; intros x; cbn [run apply_events fold_left].
  - reflexivity.
  - specialize (IH (apply_event x e)).
    destruct (run (apply_event x e) es) as [x' os']. exact IH.
Qed.

Lemma StronglySorted_app_last (a : R) (l1 l2 : list R) :
  StronglySorted Rle (a :: l1) ->
  StronglySorted Rle (last l1 a :: l2) ->
  StronglySorted Rle (a :: l1 ++ l2).
Proof.
  revert a. induction l1 as [|b l1 IH]; intros a H1 H2.
  - exact H2.
  - apply StronglySorted_inv in H1 as [Hs Hall].
    rewrite <- (last_cons_default l1 b a) in H2.
    specialize (IH b Hs H2).
    cbn [app]. constructor; [exact IH|].
    constructor; [now inversion Hall|].
    apply StronglySorted_inv in IH as [_ Hall'].
    eapply Forall_Rle_trans; [|exact Hall']. now inversion Hall.
Qed.

Lemma last_app_default (l1 l2 : list R) (d : R) :
  last (l1 ++ l2) d = last l2 (last l1 d).
Proof.
  revert d. induction l1 as [|a l1 IH]; intros d; [reflexivity|].
  cbn [app]. rewrite <- !(last_cons_default _ a d). apply IH.
Qed.

Lemma within_envelope_run_step (x : t_physicslfo) (e : event) :
  looping_mode x = 0%Z -> 0 <= sr_inv x -> within_envelope_run e ->
  looping_mode (apply_event x e) = 0%Z
  /\ 0 <= sr_inv (apply_event x e)
  /\ StronglySorted Rle
       (phase x
          :: map sim_phase
               match e with
               | EvPerform ins => snd (physicslfo_perform64 x ins)
               | _ => []
               end)
  /\ phase (apply_event x e) =
       last (map sim_phase
               match e with
               | EvPerform ins => snd (physicslfo_perform64 x ins)
               | _ => []
               end) (phase x).
Proof.
  intros Hm Hd He.
  assert (Hone : StronglySorted Rle [phase x]) by repeat constructor.
  destruct e as [[[[c0 c1] c2] c3] samplerate|ins|inlet f|inlet n|inlet|n|f];
    cbn [apply_event within_envelope_run] in *.
  - cbn. repeat split; try assumption.
    apply Rlt_le, Rdiv_lt_0_compat; lra.
  - pose proof (physicslfo_perform64_config x ins)
      as (_ & Hsr & _ & _ & _ & _ & _ & _ & _ & _ & Hl).
    rewrite <- Hl, <- Hsr.
    unfold physicslfo_perform64.
    destruct (perform_loop x (phase x) (sr_inv x) ins) as [[x' ph'] os] eqn:E.
    apply (perform_loop_envelope _ _ Hd) in E as (Hs & Hlast & _);
      [|exact Hm].
    cbn [fst snd phase set_phase]. repeat split; assumption.
  - unfold physicslfo_float.
    destruct inlet as [|[[]|[]|]|]; cbn; repeat split; assumption.
  - unfold physicslfo_int.
    destruct inlet as [|[[]|[]|]|]; cbn; repeat split; assumption.
  - unfold physicslfo_bang. destruct (Z.eqb_spec inlet 0) as [->|_];
      [contradiction|]. repeat split; assumption.
  - subst n. cbn. repeat split; assumption.
  - unfold physicslfo_phase. rewrite Hm. cbn. repeat split; assumption.
Qed.

(** The phases of an envelope run stay sorted when held scalars are set,
    phase messages are rejected, or the audio is restarted between signal
    vectors. *)
Lemma envelope_run_phase_nondecreasing (es : list event) :
  forall x : t_physicslfo,
    looping_mode x = 0%Z -> 0 <= sr_inv x ->
    Forall within_envelope_run es ->
    StronglySorted Rle (phase x :: map sim_phase (snd (run x es)))
    /\ phase (fst (run x es)) = last (map sim_phase (snd (run x es))) (phase x).
Proof.
  induction es as [|e es IH]; intros x Hm Hd Hes; cbn [run].
  - cbn. split; [repeat constructor|reflexivity].
  - apply Forall_cons_iff in Hes as [He Hes].
    destruct (within_envelope_run_step x e Hm Hd He)
      as (Hm' & Hd' & Hs & Hlast).
    specialize (IH (apply_event x e) Hm' Hd' Hes).
    destruct (run (apply_event x e) es) as [x' os'].
    cbn [fst snd] in *. destruct IH as [IHs IHlast].
    rewrite map_app. rewrite Hlast in IHs, IHlast. split.
    + now apply StronglySorted_app_last.
    + rewrite IHlast. rewrite last_app_default. reflexivity.
Qed.

Lemma within_looping_step (x : t_physicslfo) (e : event) :
  looping_mode x <> 0%Z -> 0 <= phase x <= 1 -> 0 <= sr_inv x < 1 / 1000 ->
  within_looping e ->
  looping_mode (apply_event x e) <> 0%Z
  /\ 0 <= phase (apply_event x e) <= 1
  /\ 0 <= sr_inv (apply_event x e) < 1 / 1000
  /\ phases_in_unit
       match e with
       | EvPerform ins => snd (physicslfo_perform64 x ins)
       | _ => []
       end.
Proof.
  intros Hm Hph Hd He.
  assert (Hnil : phases_in_unit []) by constructor.
  destruct e as [[[[c0 c1] c2] c3] samplerate|ins|inlet f|inlet n|inlet|n|f];
    cbn [apply_event within_looping] in *.
  - cbn. repeat split; try assumption; try lra.
    + apply Rlt_le, Rdiv_lt_0_compat; lra.
    + apply Rmult_lt_reg_r with samplerate; [lra|].
      unfold Rdiv. rewrite Rmult_assoc, Rinv_l by lra. lra.
  - pose proof (physicslfo_perform64_config x ins)
      as (_ & Hsr & _ & _ & _ & _ & _ & _ & _ & _ & Hl).
    rewrite <- Hl, <- Hsr. unfold physicslfo_perform64.
    destruct (perform_loop x (phase x) (sr_inv x) ins) as [[x' ph'] os] eqn:E.
    apply (perform_loop_looping_range _ _ Hd) in E as [Hall Hp];
      [|exact Hm|exact Hph].
    cbn [fst snd phase set_phase]. repeat split; try assumption; lra.
  - unfold physicslfo_float.
    destruct inlet as [|[[]|[]|]|]; cbn; repeat split; try assumption; lra.
  - unfold physicslfo_int.
    destruct inlet as [|[[]|[]|]|]; cbn; repeat split; try assumption; lra.
  - unfold physicslfo_bang. apply truthy_true in Hm. rewrite Hm.
    destruct (inlet =? 0)%Z; cbn; rewrite ?Hm;
      repeat split; try assumption; try lra;
      apply truthy_true; exact Hm.
  - unfold physicslfo_looping, truthy.
    destruct (Z.eqb_spec n 0) as [->|_]; [contradiction|].
    cbn. repeat split; try assumption; try lra. discriminate.
  - unfold physicslfo_phase. pose proof Hm as Hm'.
    apply truthy_true in Hm'. rewrite Hm'. cbn.
    pose proof (CLAMP_bounds f 0.0 1.0 ltac:(lra)).
    repeat split; try assumption; lra.
Qed.

(** The looping phases stay in [0,1) when triggers, phase messages and
    held scalars arrive between signal vectors: a bang stores phase 0 and a
    phase message a value clamped to [0,1]. *)
Lemma looping_run_phase_in_unit_interval (es : list event) :
  forall x : t_physicslfo,
    looping_mode x <> 0%Z -> 0 <= phase x <= 1 ->
    0 <= sr_inv x < 1 / 1000 ->
    Forall within_looping es ->
    phases_in_unit (snd (run x es)).
Proof.
  induction es as [|e es IH]; intros x Hm Hph Hd Hes; cbn [run].
  - constructor.
  - apply Forall_cons_iff in Hes as [He Hes].
    destruct (within_looping_step x e Hm Hph Hd He)
      as (Hm' & Hph' & Hd' & Hall).
    specialize (IH (apply_event x e) Hm' Hph' Hd' Hes).
    destruct (run (apply_event x e) es) as [x' os'].
    cbn [snd] in *. apply Forall_app. split; assumption.
Qed.

(** * Further properties of the engine *)

(** ** The six simulation functions *)

Lemma ln_nonneg (a : R) : 1 <= a -> 0 <= ln a.
Proof.
  intros [Hlt|<-].
  - rewrite <- ln_1. left. apply ln_increasing; lra.
  - rewrite ln_1. lra.
Qed.

Lemma pow_below_one (a y : R) : 0 <= a < 1 -> 0 < y -> 0 <= pow a y < 1.
Proof.
  intros [[Hpos|<-] Hlt] Hy.
  - rewrite pow_pos_base by exact Hpos. split; [left; apply exp_pos|].
    unfold Rpower. rewrite <- exp_0. apply exp_increasing.
    assert (Hln : ln a < 0) by (rewrite <- ln_1; apply ln_increasing; lra).
    nra.
  - rewrite pow_zero_base by exact Hy. lra.
Qed.

Lemma pow_above_one (a y : R) : 1 <= a -> 0 <= y -> 1 <= pow a y.
Proof.
  intros Ha Hy. rewrite pow_pos_base by lra.
  unfold Rpower. rewrite <- exp_0. apply exp_mono.
  pose proof (ln_nonneg a Ha). nra.
Qed.

Lemma pow_nonneg (a y : R) : 0 <= pow a y.
Proof.
  unfold pow. destruct (Rlt_dec 0 a).
  - left. apply exp_pos.
  - destruct (Req_dec_T y 0); lra.
Qed.

Lemma fmax_bounds (a b : R) : a <= fmax a b /\ b <= fmax a b
  /\ (fmax a b = a \/ fmax a b = b).
Proof. unfold fmax. destruct (Rle_dec a b); repeat split; auto; lra. Qed.

(** X1: the bounce sample is in [0,1] on every input, and with energy in
    [0,1], phase and damping not negative, it never exceeds the energy the
    object still has. *)
Theorem bounce_sample_bounded_by_energy (x : t_physicslfo)
  (t param damping : R) :
  in_unit (snd (simulate_bounce x t param damping))
  /\ (0 <= energy x <= 1 -> 0 <= t -> 0 <= damping ->
      snd (simulate_bounce x t param damping) <= energy x).
Proof.
  unfold simulate_bounce, in_unit.
  set (p := pow t (0.5 + param * 3.0)).
  set (m := fmax 0.1 (1.0 - damping * t * 1.5)).
  destruct (fmax_bounds 0.1 (1.0 - damping * t * 1.5)) as (Hm1 & _ & Hm).
  pose proof (pow_nonneg t (0.5 + param * 3.0)) as Hp.
  fold m in Hm1, Hm. fold p in Hp. clearbody m p.
  destruct (Rle_dec (energy x * m * (1.0 - p)) 0.0) as [Hc|Hc]; cbn [snd].
  - rewrite CLAMP_low by lra. split; [lra|]. intros. lra.
  - pose proof (CLAMP_bounds (energy x * m * (1.0 - p)) 0.0 1.0 ltac:(lra))
      as Hb.
    split; [lra|]. intros He Ht Hd.
    assert (Hdt : 0 <= damping * t) by nra.
    assert (Hm' : 0.1 <= m <= 1) by (destruct Hm as [Hm|Hm]; lra).
    assert (Hem : 0 <= energy x * m <= energy x) by nra.
    assert (Hh : energy x * m * (1.0 - p) <= energy x) by nra.
    unfold CLAMP.
    destruct (Rgt_dec (energy x * m * (1.0 - p)) 0.0); [|lra].
    destruct (Rlt_dec (energy x * m * (1.0 - p)) 1.0); lra.
Qed.

Lemma bounce_sample_bounded_witness :
  snd (simulate_bounce fresh 0.5 0.5 0.1) <= energy fresh.
Proof.
  apply (bounce_sample_bounded_by_energy fresh 0.5 0.5 0.1).
  - rewrite fresh_energy. lra.
  - lra.
  - lra.
Defined.



(** X3: from phase 1 on every call of the bounce is a ground contact: the
    sample is exactly 0, energy is multiplied by [1 - 0.8 * damping] and
    bounce_count grows by one, on every frame. *)
Theorem bounce_is_grounded_after_cycle_end (x : t_physicslfo)
  (t param damping : R) :
  0 <= energy x -> 1 <= t -> 0 <= param ->
  simulate_bounce x t param damping =
    (set_bounce_count (set_energy x (energy x * (1.0 - damping * 0.8)))
       (bounce_count x + 1.0), 0.0).
Proof.
  intros He Ht Hp. unfold simulate_bounce.
  pose proof (pow_above_one t (0.5 + param * 3.0) Ht ltac:(lra)) as Hpow.
  destruct (fmax_bounds 0.1 (1.0 - damping * t * 1.5)) as (Hm1 & _ & _).
  set (p := pow t (0.5 + param * 3.0)) in *.
  set (m := fmax 0.1 (1.0 - damping * t * 1.5)) in *.
  assert (Hh : energy x * m * (1.0 - p) <= 0).
  { assert (0 <= energy x * m) by nra. nra. }
  destruct (Rle_dec (energy x * m * (1.0 - p)) 0.0) as [Hc|Hc]; [|lra].
  rewrite CLAMP_low by lra. reflexivity.
Qed.

Lemma bounce_is_grounded_witness :
  simulate_bounce fresh 2 0.5 0.1 =
    (set_bounce_count (set_energy fresh (energy fresh * (1.0 - 0.1 * 0.8)))
       (bounce_count fresh + 1.0), 0.0).
Proof.
  apply (bounce_is_grounded_after_cycle_end fresh 2 0.5 0.1).
  - rewrite fresh_energy. lra.
  - lra.
  - lra.
Defined.

Lemma exp_le_one (a : R) : a <= 0 -> 0 < exp a <= 1.
Proof.
  intros Ha. split; [apply exp_pos|]. rewrite <- exp_0. now apply exp_mono.
Qed.

(** X4: the damped decay never changes the object, and for phase and
    damping not negative its sample lies between 0 and the decay envelope
    [exp (- (1 + 4 * damping) * t)], which is at most 1: the ringing dies
    out under that envelope. *)
Theorem elastic_sample_under_envelope (x : t_physicslfo)
  (t tension damping : R) :
  0 <= t -> 0 <= damping ->
  fst (simulate_elastic x t tension damping) = x
  /\ 0 <= snd (simulate_elastic x t tension damping)
       <= exp (- (1.0 + damping * 4.0) * t)
  /\ exp (- (1.0 + damping * 4.0) * t) <= 1.
Proof.
  intros Ht Hd. unfold simulate_elastic. cbn [fst snd].
  pose proof (exp_le_one (- (1.0 + damping * 4.0) * t) ltac:(nra)) as He.
  set (e := exp (- (1.0 + damping * 4.0) * t)) in *. clearbody e.
  match goal with
  | |- context [sin ?a] => pose proof (SIN_bound a) as Hs; set (s := sin a) in *
  end.
  clearbody s. split; [reflexivity|]. split; [|lra]. nra.
Qed.

Lemma elastic_sample_under_envelope_witness :
  0 <= snd (simulate_elastic fresh 0.5 0.5 0.1)
    <= exp (- (1.0 + 0.1 * 4.0) * 0.5).
Proof.
  apply (elastic_sample_under_envelope fresh 0.5 0.5 0.1); lra.
Defined.

(** X5: the overshoot never changes the object.  For phase, shape and
    damping in their domains the sample is the exponential approach to 0.6,
    which lies in [0, 0.6), plus an oscillation of size at most
    [(0.3 + 0.4 * shape) * exp (- 2.5 * damping * t)]; so the sample lies in
    [-0.7, 1.3].  Once that decay factor is below 0.01 the oscillation is
    cut and the sample is the approach term alone. *)
Theorem overshoot_sample_around_approach (x : t_physicslfo)
  (t tension damping : R) :
  0 <= t -> 0 <= tension <= 1 -> 0 <= damping ->
  fst (simulate_elastic_overshoot x t tension damping) = x
  /\ 0 <= 0.6 * (1.0 - exp (- (2.0 + damping * 3.0) * t)) < 0.6
  /\ 0.6 * (1.0 - exp (- (2.0 + damping * 3.0) * t))
       - (0.3 + tension * 0.4) * exp (- damping * t * 2.5)
     <= snd (simulate_elastic_overshoot x t tension damping)
     <= 0.6 * (1.0 - exp (- (2.0 + damping * 3.0) * t))
          + (0.3 + tension * 0.4) * exp (- damping * t * 2.5)
  /\ - 0.7 <= snd (simulate_elastic_overshoot x t tension damping) <= 1.3
  /\ (exp (- damping * t * 2.5) < 0.01 ->
      snd (simulate_elastic_overshoot x t tension damping) =
        0.6 * (1.0 - exp (- (2.0 + damping * 3.0) * t))).
Proof.
  intros Ht Hs Hd. unfold simulate_elastic_overshoot. cbn [fst snd].
  pose proof (exp_le_one (- (2.0 + damping * 3.0) * t) ltac:(nra)) as Ha.
  pose proof (exp_le_one (- damping * t * 2.5) ltac:(nra)) as Hdec.
  set (a := exp (- (2.0 + damping * 3.0) * t)) in *. clearbody a.
  set (dec := exp (- damping * t * 2.5)) in *. clearbody dec.
  match goal with
  | |- context [sin ?u] => pose proof (SIN_bound u) as Hsin; set (s := sin u) in *
  end.
  clearbody s.
  assert (Hamp : 0 <= (0.3 + tension * 0.4) * dec <= 0.7) by nra.
  assert (Hosc : - ((0.3 + tension * 0.4) * dec)
                 <= s * (0.3 + tension * 0.4) * dec
                 <= (0.3 + tension * 0.4) * dec) by nra.
  split; [reflexivity|]. split; [lra|].
  destruct (Rlt_dec dec 0.01) as [Hcut|Hcut].
  - repeat split; lra.
  - repeat split; lra.
Qed.

Lemma overshoot_sample_witness :
  - 0.7 <= snd (simulate_elastic_overshoot fresh 0.5 0.5 0.1) <= 1.3.
Proof.
  apply (overshoot_sample_around_approach fresh 0.5 0.5 0.1); lra.
Defined.

(** X6: the wobble never changes the object.  For phase, shape and damping
    in their domains the sample is the exponential approach to 0.5, which
    lies in [0, 0.5), plus a beat of size at most
    [0.3 * exp (- 1.2 * damping * t)]; so the sample lies in [-0.3, 0.8].
    Once that decay factor is below 0.01 the beat is silenced and the sample
    is the approach term alone. *)
Theorem wobble_sample_around_approach (x : t_physicslfo)
  (t tension damping : R) :
  0 <= t -> 0 <= damping ->
  fst (simulate_wobble x t tension damping) = x
  /\ 0 <= 0.5 * (1.0 - exp (- (1.5 + damping * 2.0) * t)) < 0.5
  /\ 0.5 * (1.0 - exp (- (1.5 + damping * 2.0) * t))
       - 0.3 * exp (- damping * t * 1.2)
     <= snd (simulate_wobble x t tension damping)
     <= 0.5 * (1.0 - exp (- (1.5 + damping * 2.0) * t))
          + 0.3 * exp (- damping * t * 1.2)
  /\ - 0.3 <= snd (simulate_wobble x t tension damping) <= 0.8
  /\ (exp (- damping * t * 1.2) < 0.01 ->
      snd (simulate_wobble x t tension damping) =
        0.5 * (1.0 - exp (- (1.5 + damping * 2.0) * t))).
Proof.
  intros Ht Hd. unfold simulate_wobble. cbn [fst snd].
  pose proof (exp_le_one (- (1.5 + damping * 2.0) * t) ltac:(nra)) as Ha.
  pose proof (exp_le_one (- damping * t * 1.2) ltac:(nra)) as Hdec.
  set (a := exp (- (1.5 + damping * 2.0) * t)) in *. clearbody a.
  set (dec := exp (- damping * t * 1.2)) in *. clearbody dec.
  pose proof (SIN_bound (2.0 * PI * (1.5 + tension * 2.5) * t)) as Hs1.
  pose proof (SIN_bound
                (2.0 * PI * (1.5 + tension * 2.5 + tension * 0.8) * t))
    as Hs2.
  set (s1 := sin (2.0 * PI * (1.5 + tension * 2.5) * t)) in *.
  set (s2 := sin (2.0 * PI * (1.5 + tension * 2.5 + tension * 0.8) * t))
    in *.
  clearbody s1 s2.
  assert (Hbeat : - 1 <= (s1 + s2 * 0.8) / 1.8 <= 1) by lra.
  set (b := (s1 + s2 * 0.8) / 1.8) in *. clearbody b.
  split; [reflexivity|]. split; [lra|].
  destruct (Rlt_dec dec 0.01) as [Hcut|Hcut].
  - repeat split; nra.
  - repeat split; nra.
Qed.

Lemma wobble_sample_witness :
  - 0.3 <= snd (simulate_wobble fresh 0.5 0.5 0.1) <= 0.8.
Proof.
  apply (wobble_sample_around_approach fresh 0.5 0.5 0.1); lra.
Defined.

Lemma pow_unit_base (a y : R) : 0 <= a <= 1 -> 0 < y -> 0 <= pow a y <= 1.
Proof.
  intros [H0 [Hlt| ->]] Hy.
  - pose proof (pow_below_one a y ltac:(lra) Hy). lra.
  - rewrite pow_pos_base by lra. unfold Rpower. rewrite ln_1, Rmult_0_r, exp_0.
    lra.
Qed.

(** X7: inside the first cycle (phase in [0,1]), with energy, shape and
    damping in their domains, the bounce with spin puts out at least 0 and at
    most 2.2 times the energy the object has: the spin and wobble terms can
    lift the base bounce by a factor of up to 1 + 0.7 * 1.5 + 0.15. *)
Theorem bounce_spin_sample_bound (x : t_physicslfo) (t param damping : R) :
  0 <= energy x <= 1 -> 0 <= t <= 1 -> 0 <= param <= 1 -> 0 <= damping ->
  0 <= snd (simulate_bounce_spin x t param damping) <= 2.2 * energy x.
Proof.
  intros He Ht Hp Hd. unfold simulate_bounce_spin.
  pose proof (pow_unit_base t (0.3 + param * 2.5) Ht ltac:(lra)) as Hpow.
  destruct (fmax_bounds 0.15 (1.0 - damping * t * 1.0)) as (Hm1 & _ & Hm).
  assert (Hdt : 0 <= damping * t) by nra.
  assert (Hm' : 0.15 <= fmax 0.15 (1.0 - damping * t * 1.0) <= 1)
    by (destruct Hm as [Hm|Hm]; lra).
  clear Hm Hm1.
  set (m := fmax 0.15 (1.0 - damping * t * 1.0)) in *. clearbody m.
  set (p := pow t (0.3 + param * 2.5)) in *. clearbody p.
  assert (Hb : 0 <= energy x * m * (1.0 - p) <= energy x).
  { assert (0 <= energy x * m <= energy x) by nra. nra. }
  set (b := energy x * m * (1.0 - p)) in *. clearbody b.
  pose proof (SIN_bound (2.0 * PI * (3.0 + param * 12.0) * t)) as Hs1.
  pose proof (SIN_bound (2.0 * PI * (1.5 + param * 6.0) * t + PI / 3))
    as Hs2.
  pose proof (SIN_bound (2.0 * PI * (0.5 + param * 1.5) * t)) as Hs3.
  set (s1 := sin (2.0 * PI * (3.0 + param * 12.0) * t)) in *.
  set (s2 := sin (2.0 * PI * (1.5 + param * 6.0) * t + PI / 3)) in *.
  set (s3 := sin (2.0 * PI * (0.5 + param * 1.5) * t)) in *.
  clearbody s1 s2 s3.
  assert (Hcs : - 1 <= s1 * 0.7 + s2 * 0.3 <= 1) by lra.
  set (cs := s1 * 0.7 + s2 * 0.3) in *. clearbody cs.
  assert (Hinf : 0 <= (0.3 + param * 0.4) * b * (1.0 + energy x * 0.5)
                 <= 1.05 * b).
  { assert (0 <= (0.3 + param * 0.4) * b <= 0.7 * b) by nra. nra. }
  set (inf := (0.3 + param * 0.4) * b * (1.0 + energy x * 0.5)) in *.
  clearbody inf.
  assert (Hw : - 0.15 <= s3 * 0.15 * param <= 0.15) by nra.
  set (w := s3 * 0.15 * param) in *. clearbody w.
  assert (Hfinal : b + cs * inf + w * b <= 2.2 * b) by nra.
  destruct (Rle_dec (b + cs * inf + w * b) 0.0) as [Hc|Hc]; cbn [snd];
    unfold fmax;
    match goal with
    | |- context [Rle_dec ?u ?v] => destruct (Rle_dec u v)
    end; lra.
Qed.

Lemma bounce_spin_sample_bound_witness :
  0 <= snd (simulate_bounce_spin fresh 0.5 0.5 0.1) <= 2.2 * energy fresh.
Proof.
  apply (bounce_spin_sample_bound fresh 0.5 0.5 0.1); try lra.
  rewrite fresh_energy. lra.
Defined.

(** X8: the multi-bounce never changes the object, and for phase, shape and
    damping in their domains its sample lies between 0 and the amplitude of
    the current bounce, [retain ^ k] with [retain = 0.5 + 0.4 * damping] and
    [k] the integer part of [t * (2 + 6 * shape)]; each bounce peaks lower
    than the one before. *)
Theorem multibounce_sample_under_amplitude (x : t_physicslfo)
  (t param damping : R) :
  0 <= t -> 0 <= param -> 0 <= damping <= 1 ->
  fst (simulate_multibounce x t param damping) = x
  /\ 0 <= snd (simulate_multibounce x t param damping)
       <= (0.5 + damping * 0.4)
          ^ Z.to_nat (Int_part (t * (2.0 + param * 6.0)))
  /\ (0.5 + damping * 0.4)
     ^ S (Z.to_nat (Int_part (t * (2.0 + param * 6.0))))
     <= (0.5 + damping * 0.4)
        ^ Z.to_nat (Int_part (t * (2.0 + param * 6.0))) <= 1.
Proof.
  intros Ht Hp Hd.
  assert (Hn : 0 <= t * (2.0 + param * 6.0)) by nra.
  pose proof (Int_part_bounds (t * (2.0 + param * 6.0))) as Hb.
  assert (Hk0 : (0 <= Int_part (t * (2.0 + param * 6.0)))%Z).
  { pose proof (Int_part_mono 0 _ Hn) as Hm.
    change 0 with (IZR 0) in Hm. now rewrite Int_part_IZR in Hm. }
  assert (Hamp : bounce_amplitude t param damping
                 = (0.5 + damping * 0.4)
                   ^ Z.to_nat (Int_part (t * (2.0 + param * 6.0)))).
  { apply bounce_amplitude_at; [lra|]. rewrite Z2Nat.id by exact Hk0. lra. }
  set (k := Z.to_nat (Int_part (t * (2.0 + param * 6.0)))) in *.
  assert (Hpow : 0 < (0.5 + damping * 0.4) ^ k <= 1).
  { split; [apply pow_lt; lra|].
    rewrite <- (pow1 k). apply pow_incr. lra. }
  split; [apply simulate_multibounce_state|]. split.
  - rewrite simulate_multibounce_value, Hamp.
    destruct (Rlt_dec ((0.5 + damping * 0.4) ^ k) 0.02); [lra|].
    rewrite fmod_one by exact Hn.
    destruct (base_fp (t * (2.0 + param * 6.0))) as [Hf0 Hf1].
    set (f := frac_part (t * (2.0 + param * 6.0))) in *. clearbody f.
    assert (Hh : 0 <= 4 * f * (1 - f) <= 1).
    { pose proof (Rle_0_sqr (2 * f - 1)) as Hsq. unfold Rsqr in Hsq. nra. }
    set (a := (0.5 + damping * 0.4) ^ k) in *. clearbody a. nra.
  - split; [|lra]. cbn [Rpow_def.pow].
    set (a := (0.5 + damping * 0.4) ^ k) in *. clearbody a. nra.
Qed.

Lemma multibounce_sample_under_amplitude_witness :
  0 <= snd (simulate_multibounce fresh 0.5 0.5 0.1)
    <= (0.5 + 0.1 * 0.4) ^ Z.to_nat (Int_part (0.5 * (2.0 + 0.5 * 6.0))).
Proof.
  apply (multibounce_sample_under_amplitude fresh 0.5 0.5 0.1); lra.
Defined.

(** X9: a call of whichever simulation function the selector picks either
    leaves the object exactly as it was, or is a ground contact of type 0 or
    type 2: then the sample is exactly 0, energy is multiplied by
    [1 - 0.8 * damping] (type 0) or [1 - 0.5 * damping] (type 2),
    bounce_count grows by one, and no other field changes. *)
Theorem simulate_changes_only_on_ground_contact (type : Z)
  (x : t_physicslfo) (t param damping : R) :
  fst (simulate type x t param damping) = x
  \/ (type = 0%Z
      /\ simulate type x t param damping =
           (set_bounce_count
              (set_energy x (energy x * (1.0 - damping * 0.8)))
              (bounce_count x + 1.0), 0.0))
  \/ (type = 2%Z
      /\ simulate type x t param damping =
           (set_bounce_count
              (set_energy x (energy x * (1.0 - damping * 0.5)))
              (bounce_count x + 1.0), 0.0)).
Proof.
  destruct type as [|q|q]; [| |left; reflexivity].
  - cbn [simulate]. unfold simulate_bounce.
    match goal with
    | |- context [Rle_dec ?h 0.0] => destruct (Rle_dec h 0.0)
    end.
    + right. left. split; [reflexivity|].
      rewrite CLAMP_low by lra. reflexivity.
    + left. reflexivity.
  - destruct q as [[[]|[]|]|[[]|[]|]|]; cbn [simulate];
      try (left; reflexivity).
    + left. apply simulate_multibounce_state.
    + unfold simulate_bounce_spin.
      match goal with
      | |- context [Rle_dec ?h 0.0] => destruct (Rle_dec h 0.0)
      end.
      * right. right. split; [reflexivity|]. f_equal.
        unfold fmax. destruct (Rle_dec 0.0 0.0); reflexivity.
      * left. reflexivity.
Qed.

(** ** The parameter resolver and the messages *)

(** X10: whatever arrives for the type, from a signal or a held scalar, the
    selector of the sample loop is a whole number from 0 to 5: values at or
    below 0 select type 0, values at or above 5 select type 5, and a value in
    between selects its integer part (2.9 selects type 2). *)
Theorem type_selector_saturates_and_truncates (x : t_physicslfo)
  (s : sample_in) :
  (0 <= type_of x s <= 5)%Z
  /\ forall v : R,
       v = (if truthy (type_has_signal x) then type_in s else type_float x) ->
       (v <= 0 -> type_of x s = 0%Z)
       /\ (5 <= v -> type_of x s = 5%Z)
       /\ (0 <= v <= 5 -> type_of x s = Int_part v).
Proof.
  unfold type_of.
  set (v := if truthy (type_has_signal x) then type_in s else type_float x).
  clearbody v.
  assert (Hcases :
    (v <= 0 -> long_of_double (CLAMP v 0.0 5.0) = 0%Z)
    /\ (5 <= v -> long_of_double (CLAMP v 0.0 5.0) = 5%Z)
    /\ (0 <= v <= 5 -> long_of_double (CLAMP v 0.0 5.0) = Int_part v)).
  { repeat split.
    - intros Hv. rewrite CLAMP_low by lra.
      replace 0.0 with (IZR 0) by lra. apply long_of_double_IZR.
    - intros Hv. rewrite CLAMP_high by lra.
      replace 5.0 with (IZR 5) by lra. apply long_of_double_IZR.
    - intros Hv. rewrite CLAMP_inside by lra.
      apply long_of_double_nonneg. lra. }
  split.
  - destruct Hcases as (H0 & H5 & Hmid).
    destruct (Rle_dec v 0) as [Hv0|Hv0]; [rewrite H0 by exact Hv0; lia|].
    destruct (Rle_dec 5 v) as [Hv5|Hv5]; [rewrite H5 by exact Hv5; lia|].
    rewrite Hmid by lra.
    pose proof (Int_part_mono 0 v ltac:(lra)) as Hlo.
    pose proof (Int_part_mono v 5 ltac:(lra)) as Hhi.
    change 0 with (IZR 0) in Hlo. change 5 with (IZR 5) in Hhi.
    rewrite Int_part_IZR in Hlo, Hhi. lia.
  - intros w ->. exact Hcases.
Qed.




Lemma CLAMP_long_range (n : Z) : (0 <= CLAMP_long n 0 5 <= 5)%Z.
Proof.
  unfold CLAMP_long.
  destruct (Z.gtb_spec n 0); [destruct (Z.ltb_spec n 5)|]; lia.
Qed.

Lemma CLAMP_long_as_double (n : Z) :
  long_of_double (CLAMP (IZR n) 0.0 5.0) = CLAMP_long n 0 5.
Proof.
  unfold CLAMP_long.
  destruct (Z.gtb_spec n 0) as [Hpos|Hneg].
  - destruct (Z.ltb_spec n 5) as [Hlt|Hge].
    + rewrite CLAMP_inside; [apply long_of_double_IZR|].
      apply IZR_lt in Hlt. apply IZR_lt in Hpos. lra.
    + rewrite CLAMP_high; [|lra|apply IZR_le in Hge; lra].
      replace 5.0 with (IZR 5) by lra. apply long_of_double_IZR.
  - rewrite CLAMP_low by (apply IZR_le in Hneg; lra).
    replace 0.0 with (IZR 0) by lra. apply long_of_double_IZR.
Qed.

(** X12: an int message does what the float message with the same number
    does, on every inlet: the same object and the same console output. *)
Theorem int_message_is_float_message (x : t_physicslfo) (inlet n : Z) :
  physicslfo_int x inlet n = physicslfo_float x inlet (IZR n).
Proof.
  unfold physicslfo_int, physicslfo_float.
  destruct inlet as [|[[]|[]|]|]; try reflexivity.
  rewrite CLAMP_long_as_double. reflexivity.
Qed.

(** X13: of two float messages to the same inlet the later one decides
    (object and console output are those of the later message alone, so a
    repeated message changes nothing more), and float messages to different
    inlets can be sent in either order. *)
Theorem float_messages_override_and_commute (x : t_physicslfo)
  (i j : Z) (f g : R) :
  physicslfo_float (fst (physicslfo_float x i f)) i g = physicslfo_float x i g
  /\ (i <> j ->
      fst (physicslfo_float (fst (physicslfo_float x i f)) j g) =
      fst (physicslfo_float (fst (physicslfo_float x j g)) i f)).
Proof.
  unfold physicslfo_float. split.
  - destruct i as [|[[]|[]|]|]; reflexivity.
  - intros Hij.
    destruct i as [|[[]|[]|]|]; destruct j as [|[[]|[]|]|];
      try reflexivity; contradiction.
Qed.

Lemma float_messages_commute_witness :
  fst (physicslfo_float (fst (physicslfo_float fresh 0 2)) 3 0.5) =
  fst (physicslfo_float (fst (physicslfo_float fresh 3 0.5)) 0 2).
Proof.
  apply (float_messages_override_and_commute fresh 0 3 2 0.5).
  intros H. discriminate H.
Defined.

(** ** Invariants of every reachable object *)

Lemma apply_events_invariant (I : t_physicslfo -> Prop) :
  (forall (x : t_physicslfo) (e : event), I x -> I (apply_event x e)) ->
  forall (es : list event) (x : t_physicslfo), I x -> I (apply_events x es).
Proof.
  intros Hstep es. unfold apply_events.
  induction es as [|e es IH]; intros x Hx; cbn [fold_left].
  - exact Hx.
  - apply IH. now apply Hstep.
Qed.

Lemma perform_loop_state_invariant (I : t_physicslfo -> Prop) (d : R) :
  (forall (x : t_physicslfo) (ph : R) (s : sample_in),
      I x -> I (fst (fst (perform_sample x ph d s)))) ->
  forall (ins : list sample_in) (x : t_physicslfo) (ph : R),
    I x -> I (fst (fst (perform_loop x ph d ins))).
Proof.
  intros Hstep. induction ins as [|s ins IH]; intros x ph Hx;
    cbn [perform_loop].
  - exact Hx.
  - specialize (Hstep x ph s Hx).
    destruct (perform_sample x ph d s) as [[x1 ph1] o].
    specialize (IH x1 ph1 Hstep).
    destruct (perform_loop x1 ph1 d ins) as [[x2 ph2] os]. exact IH.
Qed.

Lemma scalars_in_domain_config (x y : t_physicslfo) :
  same_config x y -> scalars_in_domain x -> scalars_in_domain y.
Proof.
  intros (_ & _ & E1 & E2 & E3 & E4 & _). unfold scalars_in_domain.
  rewrite <- E1, <- E2, <- E3, <- E4. tauto.
Qed.

Lemma long_of_double_CLAMP_range (f : R) :
  (0 <= long_of_double (CLAMP f 0.0 5.0) <= 5)%Z.
Proof.
  pose proof (CLAMP_bounds f 0.0 5.0 ltac:(lra)) as Hb.
  rewrite long_of_double_nonneg by lra.
  pose proof (Int_part_mono 0 (CLAMP f 0.0 5.0) ltac:(lra)) as Hlo.
  pose proof (Int_part_mono (CLAMP f 0.0 5.0) 5 ltac:(lra)) as Hhi.
  change 0 with (IZR 0) in Hlo. change 5 with (IZR 5) in Hhi.
  rewrite Int_part_IZR in Hlo, Hhi. lia.
Qed.

Lemma scalars_set_freq (x : t_physicslfo) (f : R) :
  scalars_in_domain x ->
  scalars_in_domain (set_freq_float x (CLAMP f 0.0 1000.0)).
Proof.
  intros (_ & H2 & H3 & H4).
  pose proof (CLAMP_bounds f 0.0 1000.0 ltac:(lra)).
  unfold scalars_in_domain. cbn. split; [lra|]. tauto.
Qed.

Lemma scalars_set_type (x : t_physicslfo) (k : Z) :
  (0 <= k <= 5)%Z ->
  scalars_in_domain x -> scalars_in_domain (set_type_float x (IZR k)).
Proof.
  intros Hk (H1 & _ & H3 & H4). unfold scalars_in_domain. cbn.
  split; [exact H1|]. split; [|tauto]. exists k. split; [exact Hk|reflexivity].
Qed.

Lemma scalars_set_physics (x : t_physicslfo) (f : R) :
  scalars_in_domain x ->
  scalars_in_domain (set_physics_float x (CLAMP f 0.0 1.0)).
Proof.
  intros (H1 & H2 & _ & H4).
  pose proof (CLAMP_bounds f 0.0 1.0 ltac:(lra)).
  unfold scalars_in_domain. cbn.
  split; [exact H1|]. split; [exact H2|]. split; [lra|exact H4].
Qed.

Lemma scalars_set_damping (x : t_physicslfo) (f : R) :
  scalars_in_domain x ->
  scalars_in_domain (set_damping_float x (CLAMP f 0.0 1.0)).
Proof.
  intros (H1 & H2 & H3 & _).
  pose proof (CLAMP_bounds f 0.0 1.0 ltac:(lra)).
  unfold scalars_in_domain. cbn.
  split; [exact H1|]. split; [exact H2|]. split; [exact H3|lra].
Qed.

Lemma apply_event_scalars (x : t_physicslfo) (e : event) :
  scalars_in_domain x -> scalars_in_domain (apply_event x e).
Proof.
  intros Hx.
  destruct e as [[[[c0 c1] c2] c3] samplerate|ins|inlet f|inlet n|inlet|n|f];
    cbn [apply_event].
  - exact Hx.
  - eapply scalars_in_domain_config; [|exact Hx].
    apply physicslfo_perform64_config.
  - unfold physicslfo_float.
    destruct inlet as [|[[]|[]|]|]; cbn [fst]; try exact Hx.
    + now apply scalars_set_freq.
    + now apply scalars_set_damping.
    + now apply scalars_set_physics.
    + apply scalars_set_type; [apply long_of_double_CLAMP_range|exact Hx].
  - unfold physicslfo_int.
    destruct inlet as [|[[]|[]|]|]; cbn [fst]; try exact Hx.
    + now apply scalars_set_freq.
    + now apply scalars_set_damping.
    + now apply scalars_set_physics.
    + apply scalars_set_type; [apply CLAMP_long_range|exact Hx].
  - unfold physicslfo_bang. repeat case_if; exact Hx.
  - unfold physicslfo_looping. repeat case_if; exact Hx.
  - unfold physicslfo_phase. repeat case_if; exact Hx.
Qed.

Lemma physicslfo_new_scalars (sys_sr : R) (argv : list t_atom) :
  scalars_in_domain (fst (physicslfo_new sys_sr argv)).
Proof.
  unfold physicslfo_new.
  destruct (nth_error argv 0) as [a0|]; [destruct (is_long a0)|];
    (destruct (nth_error argv 1) as [a1|]; [destruct (is_number a1)|]);
    (destruct (nth_error argv 2) as [a2|]; [destruct (is_number a2)|]);
    cbn [fst];
    repeat first
      [ apply scalars_set_damping
      | apply scalars_set_physics
      | apply scalars_set_type; [apply CLAMP_long_range|] ];
    (unfold scalars_in_domain; cbn; repeat split; try lra;
     exists 0%Z; split; [lia|lra]).
Qed.

(** X14: the held scalars of every object that can exist (created with any
    arguments at any sample rate, then put through any messages and signal
    vectors) are in their domains: rate in [0,1000], type a whole number
    from 0 to 5, shape and damping in [0,1]. *)
Theorem held_scalars_stay_in_domain (sys_sr : R) (argv : list t_atom)
  (es : list event) :
  scalars_in_domain (apply_events (fst (physicslfo_new sys_sr argv)) es).
Proof.
  apply apply_events_invariant.
  - apply apply_event_scalars.
  - apply physicslfo_new_scalars.
Qed.

Lemma simulate_bookkeeping (type : Z) (x : t_physicslfo)
  (t param damping : R) :
  velocity (fst (simulate type x t param damping)) = velocity x
  /\ acceleration (fst (simulate type x t param damping)) = acceleration x
  /\ spin_phase (fst (simulate type x t param damping)) = spin_phase x
  /\ looping_mode (fst (simulate type x t param damping)) = looping_mode x
  /\ envelope_active (fst (simulate type x t param damping)) =
       envelope_active x
  /\ (bounce_count (fst (simulate type x t param damping)) = bounce_count x
      \/ bounce_count (fst (simulate type x t param damping)) =
           bounce_count x + 1).
Proof.
  destruct (simulate_dispatch type x t param damping)
    as [E|[E|[E|[E|[E|[E|E]]]]]]; rewrite E; clear E;
    unfold simulate_bounce, simulate_elastic, simulate_bounce_spin,
      simulate_elastic_overshoot, simulate_multibounce, simulate_wobble;
    repeat case_if; cbn; repeat split; try reflexivity;
    first [left; reflexivity | right; lra].
Qed.

Lemma bookkeeping_step (x : t_physicslfo) (ph d : R) (s : sample_in) :
  bookkeeping_sound x ->
  bookkeeping_sound (fst (fst (perform_sample x ph d s))).
Proof.
  intros (Hb & Hv & Ha & Hs & Hl & He). rewrite perform_sample_eq.
  assert (Hu : bookkeeping_sound
                 (fst (fst (phase_update x ph (rate_of x s) d)))).
  { unfold phase_update, bookkeeping_sound.
    repeat case_if; cbn; repeat split; try assumption; try lra; auto;
      exists 0%nat; cbn; lra. }
  destruct (phase_update x ph (rate_of x s) d) as [[x1 ph1] w].
  cbn [fst] in Hu. destruct Hu as ([n Hn] & Hv1 & Ha1 & Hs1 & Hl1 & He1).
  pose proof (simulate_bookkeeping (type_of x s) x1 ph1 (param_of x s)
                (damping_of x s)) as (Ev & Ea & Es & El & Ee & Eb).
  destruct (simulate (type_of x s) x1 ph1 (param_of x s) (damping_of x s))
    as [x2 v].
  cbn [fst] in *. unfold bookkeeping_sound. cbn.
  rewrite Ev, Ea, Es, El, Ee. repeat split; try assumption.
  destruct Eb as [Eb|Eb]; rewrite Eb, Hn.
  - now exists n.
  - exists (S n). rewrite S_INR. reflexivity.
Qed.

Lemma apply_event_bookkeeping (x : t_physicslfo) (e : event) :
  bookkeeping_sound x -> bookkeeping_sound (apply_event x e).
Proof.
  intros Hx.
  destruct e as [[[[c0 c1] c2] c3] samplerate|ins|inlet f|inlet n|inlet|n|f];
    cbn [apply_event].
  - exact Hx.
  - unfold physicslfo_perform64.
    pose proof (perform_loop_state_invariant bookkeeping_sound (sr_inv x)
                  (fun y ph s => bookkeeping_step y ph (sr_inv x) s)
                  ins x (phase x) Hx) as Hl.
    destruct (perform_loop x (phase x) (sr_inv x) ins) as [[x' ph'] os].
    exact Hl.
  - unfold physicslfo_float.
    destruct inlet as [|[[]|[]|]|]; exact Hx.
  - unfold physicslfo_int.
    destruct inlet as [|[[]|[]|]|]; exact Hx.
  - destruct Hx as (Hb & Hv & Ha & Hs & Hl & He).
    unfold physicslfo_bang, bookkeeping_sound.
    repeat case_if; cbn; repeat split; try assumption; try lra; auto;
      exists 0%nat; cbn; lra.
  - destruct Hx as (Hb & Hv & Ha & Hs & Hl & He).
    unfold physicslfo_looping, bookkeeping_sound.
    repeat case_if; cbn; repeat split; try assumption; auto;
      discriminate.
  - destruct Hx as (Hb & Hv & Ha & Hs & Hl & He).
    unfold physicslfo_phase, bookkeeping_sound.
    repeat case_if; cbn; repeat split; try assumption; try lra; auto;
      exists 0%nat; cbn; lra.
Qed.

Lemma physicslfo_new_bookkeeping (sys_sr : R) (argv : list t_atom) :
  bookkeeping_sound (fst (physicslfo_new sys_sr argv)).
Proof.
  unfold physicslfo_new, bookkeeping_sound.
  destruct (nth_error argv 0) as [a0|]; [destruct (is_long a0)|];
    (destruct (nth_error argv 1) as [a1|]; [destruct (is_number a1)|]);
    (destruct (nth_error argv 2) as [a2|]; [destruct (is_number a2)|]);
    cbn; repeat split; try lra; auto; exists 0%nat; cbn; lra.
Qed.

(** X15: in every object that can exist, bounce_count is a whole number
    (it is set to 0 and only ever grows by one), velocity, acceleration and
    spin_phase are 0 (only the reset writes them), and looping_mode and
    envelope_active are 0 or 1. *)
Theorem bookkeeping_fields_stay_sound (sys_sr : R) (argv : list t_atom)
  (es : list event) :
  bookkeeping_sound (apply_events (fst (physicslfo_new sys_sr argv)) es).
Proof.
  apply apply_events_invariant.
  - apply apply_event_bookkeeping.
  - apply physicslfo_new_bookkeeping.
Qed.

(** ** Signal vectors *)

(** X16: the division of the frames into signal vectors does not matter:
    two sequences of vectors with the same frames in the same order give
    the same samples and leave the same object. *)
Theorem vector_size_is_irrelevant (x : t_physicslfo)
  (blocks blocks' : list (list sample_in)) :
  concat blocks = concat blocks' ->
  perform_blocks x blocks = perform_blocks x blocks'.
Proof.
  intros Hsame. rewrite !perform_blocks_concat. now rewrite Hsame.
Qed.

Lemma vector_size_is_irrelevant_witness :
  perform_blocks fresh [[silent; silent]; [silent]] =
  perform_blocks fresh [[silent]; [silent; silent]].
Proof.
  apply (vector_size_is_irrelevant fresh [[silent; silent]; [silent]]
           [[silent]; [silent; silent]]).
  reflexivity.
Defined.

Lemma perform_sample_last_value (x : t_physicslfo) (ph d : R)
  (s : sample_in) :
  last_value (fst (fst (perform_sample x ph d s))) =
    out_value (snd (perform_sample x ph d s)).
Proof.
  rewrite perform_sample_eq.
  destruct (phase_update x ph (rate_of x s) d) as [[x1 ph1] w].
  destruct (simulate (type_of x s) x1 ph1 (param_of x s) (damping_of x s))
    as [x2 v].
  reflexivity.
Qed.

Lemma perform_loop_last_value (d : R) (ins : list sample_in) :
  forall (x : t_physicslfo) (ph : R),
    last_value (fst (fst (perform_loop x ph d ins))) =
      last (map out_value (snd (perform_loop x ph d ins))) (last_value x).
Proof.
  induction ins as [|s ins IH]; intros x ph; cbn [perform_loop].
  - reflexivity.
  - pose proof (perform_sample_last_value x ph d s) as Hs.
    destruct (perform_sample x ph d s) as [[x1 ph1] o].
    specialize (IH x1 ph1).
    destruct (perform_loop x1 ph1 d ins) as [[x2 ph2] os].
    cbn [fst snd map] in *. rewrite IH, Hs.
    apply last_cons_default.
Qed.

(** X17: a signal vector of n frames puts out n samples, one per frame, and
    afterwards last_value holds the last sample written (it keeps its value
    when the vector is empty). *)
Theorem perform_writes_one_sample_per_frame (x : t_physicslfo)
  (ins : list sample_in) :
  length (snd (physicslfo_perform64 x ins)) = length ins
  /\ last_value (fst (physicslfo_perform64 x ins)) =
       last (map out_value (snd (physicslfo_perform64 x ins))) (last_value x).
Proof.
  unfold physicslfo_perform64.
  pose proof (perform_loop_last_value (sr_inv x) ins x (phase x)) as Hlast.
  destruct (perform_loop x (phase x) (sr_inv x) ins) as [[x' ph'] os] eqn:E.
  apply perform_loop_config in E as [_ Hlen].
  cbn [fst snd] in *. split; [exact Hlen|exact Hlast].
Qed.

(** ** The phase controller *)

Lemma perform_loop_phase_invariant (I : t_physicslfo -> R -> Prop) (d : R) :
  (forall (x : t_physicslfo) (ph : R) (s : sample_in),
      I x ph ->
      I (fst (fst (perform_sample x ph d s)))
        (snd (fst (perform_sample x ph d s)))) ->
  forall (ins : list sample_in) (x : t_physicslfo) (ph : R),
    I x ph ->
    I (fst (fst (perform_loop x ph d ins)))
      (snd (fst (perform_loop x ph d ins))).
Proof.
  intros Hstep. induction ins as [|s ins IH]; intros x ph Hx;
    cbn [perform_loop].
  - exact Hx.
  - specialize (Hstep x ph s Hx).
    destruct (perform_sample x ph d s) as [[x1 ph1] o].
    specialize (IH x1 ph1 Hstep).
    destruct (perform_loop x1 ph1 d ins) as [[x2 ph2] os]. exact IH.
Qed.

Lemma envelope_active_step (x : t_physicslfo) (ph d : R) (s : sample_in) :
  0 <= d ->
  looping_mode x = 0%Z
  /\ ((envelope_active x = 1%Z /\ ph < 1)
      \/ (envelope_active x = 0%Z /\ 1 <= ph)) ->
  looping_mode (fst (fst (perform_sample x ph d s))) = 0%Z
  /\ ((envelope_active (fst (fst (perform_sample x ph d s))) = 1%Z
       /\ snd (fst (perform_sample x ph d s)) < 1)
      \/ (envelope_active (fst (fst (perform_sample x ph d s))) = 0%Z
          /\ 1 <= snd (fst (perform_sample x ph d s)))).
Proof.
  intros Hd [Hm Hcase]. rewrite perform_sample_eq.
  pose proof (rate_of_range x s) as Hr.
  assert (Hinc : 0 <= rate_of x s * d) by nra.
  assert (Hu :
    looping_mode (fst (fst (phase_update x ph (rate_of x s) d))) = 0%Z
    /\ ((envelope_active (fst (fst (phase_update x ph (rate_of x s) d)))
         = 1%Z
         /\ snd (fst (phase_update x ph (rate_of x s) d)) < 1)
        \/ (envelope_active (fst (fst (phase_update x ph (rate_of x s) d)))
            = 0%Z
            /\ 1 <= snd (fst (phase_update x ph (rate_of x s) d))))).
  { unfold phase_update. rewrite Hm. cbn [truthy Z.eqb negb].
    destruct Hcase as [[Ha Hlt]|[Ha Hge]]; rewrite Ha; cbn [truthy Z.eqb negb].
    - destruct (Rge_dec (ph + rate_of x s * d) 1.0); cbn;
        (split; [exact Hm|]); [right|left]; split; try assumption;
        try reflexivity; lra.
    - cbn. split; [exact Hm|]. right. split; [exact Ha|lra]. }
  destruct (phase_update x ph (rate_of x s) d) as [[x1 ph1] w].
  pose proof (simulate_bookkeeping (type_of x s) x1 ph1 (param_of x s)
                (damping_of x s)) as (_ & _ & _ & El & Ee & _).
  destruct (simulate (type_of x s) x1 ph1 (param_of x s) (damping_of x s))
    as [x2 v].
  cbn [fst snd] in *. cbn. rewrite El, Ee. exact Hu.
Qed.

(** X18: envelope_active marks the first cycle of an envelope run.  After a
    trigger in envelope mode (sample rate positive), however many frames
    follow: envelope_active is 1 as long as the phase is below 1, and 0 once
    the phase has reached 1; the phase itself keeps growing. *)
Theorem envelope_active_marks_first_cycle (x : t_physicslfo)
  (blocks : list (list sample_in)) :
  looping_mode x = 0%Z -> 0 <= sr_inv x ->
  (phase (fst (perform_blocks (physicslfo_bang x 0) blocks)) < 1 ->
   envelope_active (fst (perform_blocks (physicslfo_bang x 0) blocks)) = 1%Z)
  /\ (1 <= phase (fst (perform_blocks (physicslfo_bang x 0) blocks)) ->
      envelope_active (fst (perform_blocks (physicslfo_bang x 0) blocks))
      = 0%Z).
Proof.
  intros Hm Hd. rewrite perform_blocks_concat.
  set (y := physicslfo_bang x 0).
  assert (Hy : looping_mode y = 0%Z
               /\ ((envelope_active y = 1%Z /\ phase y < 1)
                   \/ (envelope_active y = 0%Z /\ 1 <= phase y))).
  { unfold y, physicslfo_bang. rewrite Hm. cbn.
    split; [exact Hm|]. left. split; [reflexivity|lra]. }
  assert (Hdy : sr_inv y = sr_inv x).
  { unfold y, physicslfo_bang. rewrite Hm. reflexivity. }
  clearbody y. unfold physicslfo_perform64.
  pose proof (perform_loop_phase_invariant
                (fun z ph =>
                   looping_mode z = 0%Z
                   /\ ((envelope_active z = 1%Z /\ ph < 1)
                       \/ (envelope_active z = 0%Z /\ 1 <= ph)))
                (sr_inv y)
                (fun z ph s =>
                   envelope_active_step z ph (sr_inv y) s
                     ltac:(rewrite Hdy; exact Hd))
                (concat blocks) y (phase y) Hy) as Hl.
  destruct (perform_loop y (phase y) (sr_inv y) (concat blocks))
    as [[y' ph'] os].
  cbn [fst snd phase set_phase envelope_active] in *.
  destruct Hl as [_ [[Ha Hlt]|[Ha Hge]]]; split; intros; try exact Ha; lra.
Qed.

Lemma envelope_active_marks_first_cycle_witness :
  envelope_active (fst (perform_blocks (physicslfo_bang fresh_envelope 0)
                          [[silent; silent]])) = 1%Z.
Proof.
  assert (Hd : 0 <= sr_inv fresh_envelope)
    by (rewrite fresh_envelope_sr_inv; lra).
  apply (envelope_active_marks_first_cycle fresh_envelope [[silent; silent]]
           eq_refl Hd).
  rewrite perform_blocks_concat. cbn [concat app].
  rewrite physicslfo_perform64_envelope_held by reflexivity.
  change (phase (physicslfo_bang fresh_envelope 0)) with 0.0.
  change (freq_float (physicslfo_bang fresh_envelope 0)) with 1.0.
  change (sr_inv (physicslfo_bang fresh_envelope 0)) with (1.0 / 48000).
  rewrite CLAMP_inside by lra. cbn [length INR]. lra.
Defined.

Lemma rate_of_config (x y : t_physicslfo) (s : sample_in) :
  same_config x y -> rate_of x s = rate_of y s.
Proof.
  intros (_ & _ & Hff & _ & _ & _ & Hfs & _). unfold rate_of.
  now rewrite Hff, Hfs.
Qed.

Lemma total_rate_config (x y : t_physicslfo) (ins : list sample_in) :
  same_config x y -> total_rate x ins = total_rate y ins.
Proof.
  intros Hc. unfold total_rate. induction ins as [|s ins IH]; cbn.
  - reflexivity.
  - now rewrite IH, (rate_of_config x y s Hc).
Qed.

Lemma perform_loop_envelope_total (d : R) (ins : list sample_in) :
  forall (x x' : t_physicslfo) (ph ph' : R) (os : list sample_out),
    looping_mode x = 0%Z ->
    perform_loop x ph d ins = (x', ph', os) ->
    ph' = ph + d * total_rate x ins.
Proof.
  induction ins as [|s ins IH]; intros x x' ph ph' os Hm H;
    cbn [perform_loop] in H.
  - inversion H; subst. cbn. lra.
  - destruct (perform_sample x ph d s) as [[x1 ph1] o] eqn:Hs.
    destruct (perform_loop x1 ph1 d ins) as [[x2 ph2] os2] eqn:Hl.
    inversion H; subst.
    pose proof (perform_sample_config _ _ _ _ _ _ _ Hs) as [Hc _].
    apply perform_sample_envelope in Hs as (Hp & _ & _ & Hm1); [|exact Hm].
    apply IH in Hl; [|exact Hm1].
    rewrite Hl, Hp, <- (total_rate_config x x1 ins Hc).
    cbn [total_rate fold_right]. fold (total_rate x ins). lra.
Qed.

(** X19: in envelope mode the phase after a signal vector is the phase
    before it plus the sum of the clamped rates of its frames divided by the
    sample rate: nothing is subtracted and nothing is capped, at any sample
    rate. *)
Theorem envelope_phase_is_integrated_rate (x : t_physicslfo)
  (ins : list sample_in) :
  looping_mode x = 0%Z ->
  phase (fst (physicslfo_perform64 x ins)) =
    phase x + sr_inv x * total_rate x ins.
Proof.
  intros Hm. unfold physicslfo_perform64.
  destruct (perform_loop x (phase x) (sr_inv x) ins) as [[x' ph'] os] eqn:E.
  apply perform_loop_envelope_total in E; [|exact Hm]. exact E.
Qed.

Lemma envelope_phase_is_integrated_rate_witness :
  phase (fst (physicslfo_perform64 fresh_envelope [silent; silent])) =
    phase fresh_envelope
    + sr_inv fresh_envelope * total_rate fresh_envelope [silent; silent].
Proof.
  apply (envelope_phase_is_integrated_rate fresh_envelope [silent; silent]).
  reflexivity.
Defined.

Lemma perform_sample_looping_account (x : t_physicslfo) (ph d : R)
  (s : sample_in) :
  looping_mode x <> 0%Z -> 0 <= ph <= 1 -> 0 <= d < 1 / 1000 ->
  snd (fst (perform_sample x ph d s)) =
    ph + d * rate_of x s
    - (if sim_wrapped (snd (perform_sample x ph d s)) then 1 else 0)
  /\ 0 <= snd (fst (perform_sample x ph d s)) <= 1
  /\ looping_mode (fst (fst (perform_sample x ph d s))) <> 0%Z.
Proof.
  intros Hm Hph Hd.
  destruct (perform_sample x ph d s) as [[x1 ph1] o] eqn:Hs.
  pose proof (perform_sample_looping_range _ _ _ _ _ _ _ Hm Hph Hd Hs)
    as (Hr1 & _ & Hm1).
  cbn [fst snd]. split; [|split; [lra|exact Hm1]].
  rewrite perform_sample_eq, (phase_update_looping _ _ _ _ Hm) in Hs.
  pose proof (rate_of_range x s) as Hr.
  assert (Hinc : 0 <= rate_of x s * d < 1) by nra.
  destruct (Rge_dec (ph + rate_of x s * d) 1.0) as [Hge|Hlt];
    match type of Hs with
    | context [simulate ?ty ?y ?t ?p ?dm] =>
        destruct (simulate ty y t p dm) as [x2 v]
    end;
    inversion Hs; subst; cbn [sim_wrapped];
    rewrite wrap_negative_id by lra; lra.
Qed.

Lemma perform_loop_looping_account (d : R) (ins : list sample_in) :
  0 <= d < 1 / 1000 ->
  forall (x x' : t_physicslfo) (ph ph' : R) (os : list sample_out),
    looping_mode x <> 0%Z -> 0 <= ph <= 1 ->
    perform_loop x ph d ins = (x', ph', os) ->
    ph' = ph + d * total_rate x ins - INR (count_wraps os).
Proof.
  intros Hd. induction ins as [|s ins IH]; intros x x' ph ph' os Hm Hph H;
    cbn [perform_loop] in H.
  - inversion H; subst. cbn. lra.
  - pose proof (perform_sample_looping_account x ph d s Hm Hph Hd)
      as (Hp & Hr & Hm1).
    destruct (perform_sample x ph d s) as [[x1 ph1] o] eqn:Hs.
    destruct (perform_loop x1 ph1 d ins) as [[x2 ph2] os2] eqn:Hl.
    inversion H; subst. cbn [fst snd] in *.
    pose proof (perform_sample_config _ _ _ _ _ _ _ Hs) as [Hc _].
    apply IH in Hl; [|exact Hm1|exact Hr].
    rewrite Hl, Hp, <- (total_rate_config x x1 ins Hc).
    cbn [total_rate fold_right]. fold (total_rate x ins).
    unfold count_wraps. cbn [filter].
    destruct (sim_wrapped o); cbn [length]; rewrite ?S_INR; lra.
Qed.

(** X20: in looping mode, started with the phase in [0,1] at a sample rate
    above 1000 Hz, the phase after a signal vector is the phase before it
    plus the sum of the clamped rates divided by the sample rate, minus the
    number of frames that wrapped: every wrap takes off exactly one cycle
    and nothing else changes the phase. *)
Theorem looping_phase_is_integrated_rate_minus_wraps (x : t_physicslfo)
  (ins : list sample_in) :
  looping_mode x <> 0%Z -> 0 <= phase x <= 1 -> 0 <= sr_inv x < 1 / 1000 ->
  phase (fst (physicslfo_perform64 x ins)) =
    phase x + sr_inv x * total_rate x ins
    - INR (count_wraps (snd (physicslfo_perform64 x ins))).
Proof.
  intros Hm Hph Hd. unfold physicslfo_perform64.
  destruct (perform_loop x (phase x) (sr_inv x) ins) as [[x' ph'] os] eqn:E.
  apply (perform_loop_looping_account _ _ Hd) in E; assumption.
Qed.

Lemma looping_phase_account_witness :
  phase (fst (physicslfo_perform64 fresh [silent; silent])) =
    phase fresh + sr_inv fresh * total_rate fresh [silent; silent]
    - INR (count_wraps (snd (physicslfo_perform64 fresh [silent; silent]))).
Proof.
  apply (looping_phase_is_integrated_rate_minus_wraps fresh [silent; silent]).
  - intros H. discriminate H.
  - rewrite fresh_phase. lra.
  - rewrite fresh_sr_inv. lra.
Defined.

(** ** Signals against held scalars *)

Lemma perform_sample_unconnected (x : t_physicslfo) (ph d : R)
  (s s' : sample_in) :
  truthy (freq_has_signal x) = false ->
  truthy (type_has_signal x) = false ->
  truthy (physics_has_signal x) = false ->
  truthy (damping_has_signal x) = false ->
  perform_sample x ph d s = perform_sample x ph d s'.
Proof.
  intros Hf Ht Hp Hd. rewrite !perform_sample_eq.
  unfold rate_of, type_of, param_of, damping_of.
  rewrite Hf, Ht, Hp, Hd. reflexivity.
Qed.

Lemma perform_loop_unconnected (d : R) (ins : list sample_in) :
  forall (ins' : list sample_in) (x : t_physicslfo) (ph : R),
    truthy (freq_has_signal x) = false ->
    truthy (type_has_signal x) = false ->
    truthy (physics_has_signal x) = false ->
    truthy (damping_has_signal x) = false ->
    length ins = length ins' ->
    perform_loop x ph d ins = perform_loop x ph d ins'.
Proof.
  induction ins as [|s ins IH]; intros [|s' ins'] x ph Hf Ht Hp Hd Hlen;
    try discriminate Hlen; [reflexivity|].
  cbn [perform_loop].
  rewrite (perform_sample_unconnected x ph d s s' Hf Ht Hp Hd).
  destruct (perform_sample x ph d s') as [[x1 ph1] o] eqn:Hs.
  apply perform_sample_config in Hs
    as [(_ & _ & _ & _ & _ & _ & E1 & E2 & E3 & E4 & _) _].
  rewrite (IH ins' x1 ph1); try congruence.
  cbn [length] in Hlen. lia.
Qed.

(** X21: with no signal connected to any inlet the contents of the input
    vectors are never looked at: two vectors of the same length give the
    same samples and leave the same object. *)
Theorem unconnected_inlets_ignore_input_vectors (x : t_physicslfo)
  (ins ins' : list sample_in) :
  truthy (freq_has_signal x) = false ->
  truthy (type_has_signal x) = false ->
  truthy (physics_has_signal x) = false ->
  truthy (damping_has_signal x) = false ->
  length ins = length ins' ->
  physicslfo_perform64 x ins = physicslfo_perform64 x ins'.
Proof.
  intros Hf Ht Hp Hd Hlen. unfold physicslfo_perform64.
  now rewrite (perform_loop_unconnected (sr_inv x) ins ins' x (phase x)).
Qed.

Lemma unconnected_inlets_witness :
  physicslfo_perform64 fresh [silent; silent] =
  physicslfo_perform64 fresh [mk_sample_in 440 3 1 1; mk_sample_in 2 5 0 0].
Proof.
  apply (unconnected_inlets_ignore_input_vectors fresh [silent; silent]
           [mk_sample_in 440 3 1 1; mk_sample_in 2 5 0 0]); reflexivity.
Defined.

(** A change [g] of the object that the sample loop can carry along. *)
Section CarriedChange.

Variable g : t_physicslfo -> t_physicslfo.
Variable connected : t_physicslfo -> Prop.

Hypothesis g_phase_update :
  forall (x : t_physicslfo) (ph f d : R),
    phase_update (g x) ph f d =
      (g (fst (fst (phase_update x ph f d))),
       snd (fst (phase_update x ph f d)), snd (phase_update x ph f d)).
Hypothesis g_simulate :
  forall (type : Z) (x : t_physicslfo) (t param damping : R),
    simulate type (g x) t param damping =
      (g (fst (simulate type x t param damping)),
       snd (simulate type x t param damping)).
Hypothesis g_last_value :
  forall (x : t_physicslfo) (v : R),
    set_last_value (g x) v = g (set_last_value x v).
Hypothesis g_set_phase :
  forall (x : t_physicslfo) (v : R), set_phase (g x) v = g (set_phase x v).
Hypothesis g_controller :
  forall x : t_physicslfo, phase (g x) = phase x /\ sr_inv (g x) = sr_inv x.
Hypothesis g_inputs :
  forall (x : t_physicslfo) (s : sample_in),
    connected x ->
    rate_of (g x) s = rate_of x s /\ type_of (g x) s = type_of x s
    /\ param_of (g x) s = param_of x s
    /\ damping_of (g x) s = damping_of x s.
Hypothesis connected_config :
  forall x y : t_physicslfo, same_config x y -> connected x -> connected y.

Lemma carried_perform_sample (x : t_physicslfo) (ph d : R) (s : sample_in) :
  connected x ->
  perform_sample (g x) ph d s =
    (g (fst (fst (perform_sample x ph d s))),
     snd (fst (perform_sample x ph d s)), snd (perform_sample x ph d s)).
Proof.
  intros Hx. rewrite !perform_sample_eq.
  destruct (g_inputs x s Hx) as (-> & -> & -> & ->).
  rewrite g_phase_update.
  destruct (phase_update x ph (rate_of x s) d) as [[x1 ph1] w].
  cbn [fst snd]. rewrite g_simulate.
  destruct (simulate (type_of x s) x1 ph1 (param_of x s) (damping_of x s))
    as [x2 v].
  cbn [fst snd]. now rewrite g_last_value.
Qed.

Lemma carried_perform_loop (d : R) (ins : list sample_in) :
  forall (x : t_physicslfo) (ph : R),
    connected x ->
    perform_loop (g x) ph d ins =
      (g (fst (fst (perform_loop x ph d ins))),
       snd (fst (perform_loop x ph d ins)), snd (perform_loop x ph d ins)).
Proof.
  induction ins as [|s ins IH]; intros x ph Hx; cbn [perform_loop].
  - reflexivity.
  - rewrite (carried_perform_sample x ph d s Hx).
    destruct (perform_sample x ph d s) as [[x1 ph1] o] eqn:Hs.
    cbn [fst snd].
    apply perform_sample_config in Hs as [Hc _].
    rewrite (IH x1 ph1 (connected_config x x1 Hc Hx)).
    destruct (perform_loop x1 ph1 d ins) as [[x2 ph2] os]. reflexivity.
Qed.

Lemma carried_perform64 (x : t_physicslfo) (ins : list sample_in) :
  connected x ->
  physicslfo_perform64 (g x) ins =
    (g (fst (physicslfo_perform64 x ins)), snd (physicslfo_perform64 x ins)).
Proof.
  intros Hx. unfold physicslfo_perform64.
  destruct (g_controller x) as [-> ->].
  rewrite (carried_perform_loop (sr_inv x) ins x (phase x) Hx).
  destruct (perform_loop x (phase x) (sr_inv x) ins) as [[x' ph'] os].
  cbn [fst snd]. now rewrite g_set_phase.
Qed.

End CarriedChange.

Ltac carried_simulate :=
  intros type x t param damping;
  destruct type as [|q|q]; [| |reflexivity];
  [|destruct q as [[[]|[]|]|[[]|[]|]|]]; cbn [simulate]; try reflexivity;
  unfold simulate_bounce, simulate_bounce_spin, simulate_multibounce;
  cbn; repeat case_if; reflexivity.

Ltac carried_phase_update :=
  intros x ph f d; unfold phase_update; cbn;
  repeat case_if; reflexivity.

Lemma simulate_set_freq_float (v : R) :
  forall (type : Z) (x : t_physicslfo) (t param damping : R),
    simulate type (set_freq_float x v) t param damping =
      (set_freq_float (fst (simulate type x t param damping)) v,
       snd (simulate type x t param damping)).
Proof. carried_simulate. Qed.

Lemma phase_update_set_freq_float (v : R) :
  forall (x : t_physicslfo) (ph f d : R),
    phase_update (set_freq_float x v) ph f d =
      (set_freq_float (fst (fst (phase_update x ph f d))) v,
       snd (fst (phase_update x ph f d)), snd (phase_update x ph f d)).
Proof. carried_phase_update. Qed.

Lemma simulate_set_type_float (v : R) :
  forall (type : Z) (x : t_physicslfo) (t param damping : R),
    simulate type (set_type_float x v) t param damping =
      (set_type_float (fst (simulate type x t param damping)) v,
       snd (simulate type x t param damping)).
Proof. carried_simulate. Qed.

Lemma phase_update_set_type_float (v : R) :
  forall (x : t_physicslfo) (ph f d : R),
    phase_update (set_type_float x v) ph f d =
      (set_type_float (fst (fst (phase_update x ph f d))) v,
       snd (fst (phase_update x ph f d)), snd (phase_update x ph f d)).
Proof. carried_phase_update. Qed.

Lemma simulate_set_physics_float (v : R) :
  forall (type : Z) (x : t_physicslfo) (t param damping : R),
    simulate type (set_physics_float x v) t param damping =
      (set_physics_float (fst (simulate type x t param damping)) v,
       snd (simulate type x t param damping)).
Proof. carried_simulate. Qed.

Lemma phase_update_set_physics_float (v : R) :
  forall (x : t_physicslfo) (ph f d : R),
    phase_update (set_physics_float x v) ph f d =
      (set_physics_float (fst (fst (phase_update x ph f d))) v,
       snd (fst (phase_update x ph f d)), snd (phase_update x ph f d)).
Proof. carried_phase_update. Qed.

Lemma simulate_set_damping_float (v : R) :
  forall (type : Z) (x : t_physicslfo) (t param damping : R),
    simulate type (set_damping_float x v) t param damping =
      (set_damping_float (fst (simulate type x t param damping)) v,
       snd (simulate type x t param damping)).
Proof. carried_simulate. Qed.

Lemma phase_update_set_damping_float (v : R) :
  forall (x : t_physicslfo) (ph f d : R),
    phase_update (set_damping_float x v) ph f d =
      (set_damping_float (fst (fst (phase_update x ph f d))) v,
       snd (fst (phase_update x ph f d)), snd (phase_update x ph f d)).
Proof. carried_phase_update. Qed.

Lemma unchanged_when_connected (x : t_physicslfo) (inlet : Z) (f : R)
  (ins : list sample_in) :
  inlet_has_signal x inlet = true ->
  physicslfo_perform64 (fst (physicslfo_float x inlet f)) ins =
    (fst (physicslfo_float (fst (physicslfo_perform64 x ins)) inlet f),
     snd (physicslfo_perform64 x ins)).
Proof.
  intros Hc. unfold physicslfo_float.
  destruct inlet as [|[[]|[]|]|]; cbn [fst inlet_has_signal] in *;
    try (destruct (physicslfo_perform64 x ins); reflexivity).
  - apply (carried_perform64
             (fun y => set_freq_float y (CLAMP f 0.0 1000.0))
             (fun y => truthy (freq_has_signal y) = true));
      try reflexivity; try exact Hc.
    + apply phase_update_set_freq_float.
    + apply simulate_set_freq_float.
    + intros y; split; reflexivity.
    + intros y s Hy. unfold rate_of, type_of, param_of, damping_of. cbn.
      rewrite Hy. repeat split.
    + intros y z (_ & _ & _ & _ & _ & _ & E & _) Hy. now rewrite <- E.
  - apply (carried_perform64
             (fun y => set_damping_float y (CLAMP f 0.0 1.0))
             (fun y => truthy (damping_has_signal y) = true));
      try reflexivity; try exact Hc.
    + apply phase_update_set_damping_float.
    + apply simulate_set_damping_float.
    + intros y; split; reflexivity.
    + intros y s Hy. unfold rate_of, type_of, param_of, damping_of. cbn.
      rewrite Hy. repeat split.
    + intros y z (_ & _ & _ & _ & _ & _ & _ & _ & _ & E & _) Hy. now rewrite <- E.
  - apply (carried_perform64
             (fun y => set_physics_float y (CLAMP f 0.0 1.0))
             (fun y => truthy (physics_has_signal y) = true));
      try reflexivity; try exact Hc.
    + apply phase_update_set_physics_float.
    + apply simulate_set_physics_float.
    + intros y; split; reflexivity.
    + intros y s Hy. unfold rate_of, type_of, param_of, damping_of. cbn.
      rewrite Hy. repeat split.
    + intros y z (_ & _ & _ & _ & _ & _ & _ & _ & E & _) Hy. now rewrite <- E.
  - apply (carried_perform64
             (fun y => set_type_float y (IZR (long_of_double (CLAMP f 0.0 5.0))))
             (fun y => truthy (type_has_signal y) = true));
      try reflexivity; try exact Hc.
    + apply phase_update_set_type_float.
    + apply simulate_set_type_float.
    + intros y; split; reflexivity.
    + intros y s Hy. unfold rate_of, type_of, param_of, damping_of. cbn.
      rewrite Hy. repeat split.
    + intros y z (_ & _ & _ & _ & _ & _ & _ & E & _) Hy. now rewrite <- E.
Qed.

(** X22: a float message to an inlet that has a signal connected does not
    change what the next signal vector puts out, and can as well be sent
    after the vector: the held scalar is only a fallback. *)
Theorem message_to_connected_inlet_is_inaudible (x : t_physicslfo)
  (inlet : Z) (f : R) (ins : list sample_in) :
  inlet_has_signal x inlet = true ->
  snd (physicslfo_perform64 (fst (physicslfo_float x inlet f)) ins) =
    snd (physicslfo_perform64 x ins)
  /\ fst (physicslfo_perform64 (fst (physicslfo_float x inlet f)) ins) =
       fst (physicslfo_float (fst (physicslfo_perform64 x ins)) inlet f).
Proof.
  intros Hc. rewrite (unchanged_when_connected x inlet f ins Hc).
  split; reflexivity.
Qed.

Lemma message_to_connected_inlet_witness :
  snd (physicslfo_perform64
         (fst (physicslfo_float
                 (physicslfo_dsp64 fresh (1, 0, 0, 0)%Z 48000) 0 5))
         [silent]) =
  snd (physicslfo_perform64 (physicslfo_dsp64 fresh (1, 0, 0, 0)%Z 48000)
         [silent]).
Proof.
  apply (message_to_connected_inlet_is_inaudible
           (physicslfo_dsp64 fresh (1, 0, 0, 0)%Z 48000) 0 5 [silent]).
  reflexivity.
Defined.

(** ** Resets and cycle starts *)

(** X23: every path that resets forgets what was in energy and
    bounce_count: a bang on the first inlet (in either mode), a phase message
    in looping mode, and a frame of the sample loop that wraps give the same
    result whatever those two fields held before. *)
Theorem resets_forget_energy_and_bounce_count (x : t_physicslfo)
  (e b : R) :
  physicslfo_bang (with_history x e b) 0 = physicslfo_bang x 0
  /\ (looping_mode x <> 0%Z ->
      forall f : R,
        physicslfo_phase (with_history x e b) f = physicslfo_phase x f)
  /\ (looping_mode x <> 0%Z ->
      forall (ph d : R) (s : sample_in),
        1 <= ph + rate_of x s * d ->
        perform_sample (with_history x e b) ph d s = perform_sample x ph d s).
Proof.
  split; [|split].
  - unfold physicslfo_bang, with_history. cbn. repeat case_if; reflexivity.
  - intros Hm f. apply truthy_true in Hm.
    unfold physicslfo_phase, with_history. cbn. rewrite Hm. reflexivity.
  - intros Hm ph d s Hwrap. rewrite !perform_sample_eq.
    rewrite !phase_update_looping by exact Hm.
    change (rate_of (with_history x e b) s) with (rate_of x s).
    destruct (Rge_dec (ph + rate_of x s * d) 1.0); [reflexivity|lra].
Qed.

Lemma resets_forget_witness :
  perform_sample (with_history fresh 0.25 7) 1 (1 / 48000) silent =
  perform_sample fresh 1 (1 / 48000) silent.
Proof.
  assert (Hm : looping_mode fresh <> 0%Z) by (intros H; discriminate H).
  apply (proj2 (proj2 (resets_forget_energy_and_bounce_count fresh 0.25 7))
           Hm 1 (1 / 48000) silent).
  pose proof (rate_of_range fresh silent) as Hr. nra.
Defined.

Lemma pow_zero_exponent (a : R) : pow a 0 = 1.
Proof.
  unfold pow. destruct (Rlt_dec 0 a).
  - apply Rpower_O. assumption.
  - destruct (Req_dec_T 0 0); [reflexivity|lra].
Qed.

(** X24: where each curve starts.  At phase 0, for every shape and
    damping, the damped decay puts out exactly 0.5 and the overshoot, the
    multi-bounce and the wobble put out exactly 0; the bounce of an object
    with energy in (0,1] puts out that energy.  A trigger or a wrap
    therefore makes the output jump to these values. *)
Theorem samples_at_cycle_start (x : t_physicslfo) (param damping : R) :
  snd (simulate 1 x 0 param damping) = 0.5
  /\ snd (simulate 3 x 0 param damping) = 0
  /\ snd (simulate 4 x 0 param damping) = 0
  /\ snd (simulate 5 x 0 param damping) = 0
  /\ (0 < energy x <= 1 -> 0 <= param ->
      snd (simulate 0 x 0 param damping) = energy x).
Proof.
  cbn [simulate]. repeat split.
  - unfold simulate_elastic. cbn [snd].
    replace (- (1.0 + damping * 4.0) * 0) with 0 by lra.
    match goal with
    | |- context [sin ?a] => replace a with 0 by lra
    end.
    rewrite exp_0, sin_0. lra.
  - unfold simulate_elastic_overshoot. cbn [snd].
    replace (- (2.0 + damping * 3.0) * 0) with 0 by lra.
    replace (- damping * 0 * 2.5) with 0 by lra.
    match goal with
    | |- context [sin ?a] => replace a with 0 by lra
    end.
    rewrite exp_0, sin_0. destruct (Rlt_dec 1 0.01); lra.
  - rewrite simulate_multibounce_value. unfold bounce_amplitude.
    replace (0 * (2.0 + param * 6.0)) with (IZR 0) by (cbn; lra).
    rewrite long_of_double_IZR, pow_zero_exponent.
    destruct (Rlt_dec 1 0.02); [lra|].
    rewrite fmod_one by (cbn; lra). unfold frac_part.
    rewrite Int_part_IZR. cbn. lra.
  - unfold simulate_wobble. cbn [snd].
    replace (- (1.5 + damping * 2.0) * 0) with 0 by lra.
    replace (- damping * 0 * 1.2) with 0 by lra.
    replace (2.0 * PI * (1.5 + param * 2.5) * 0) with 0 by lra.
    replace (2.0 * PI * (1.5 + param * 2.5 + param * 0.8) * 0) with 0 by lra.
    rewrite exp_0, sin_0. destruct (Rlt_dec 1 0.01); lra.
  - intros He Hp. rewrite simulate_bounce_at_zero by lra.
    cbn [snd]. apply CLAMP_inside. lra.
Qed.

Lemma samples_at_cycle_start_witness :
  snd (simulate 0 fresh 0 0.5 0.1) = energy fresh.
Proof.
  apply (samples_at_cycle_start fresh 0.5 0.1).
  - rewrite fresh_energy. lra.
  - lra.
Defined.

(** ** The bounce in looping mode *)





End PhysicsLfo.
